(** * astro-coffee server: worker lifecycle hooks, start-up and shut-down

    A shallow embedding of [astrocoffee/coffeeserver.py] and
    [astrocoffee/handlers/coffee_workers.py].

    Python statements are written in a small state-and-exception monad
    that also records the externally visible calls a function makes, in
    program order.  Calls into libraries (tornado, the database layer,
    the OS) are events whose outcome is read from an environment. *)

From stdpp Require Import gmap strings list pretty.
From Stdlib Require Import ZArith QArith Lia.

Open Scope Z_scope.

(** ** Python: signals, exceptions, results *)

Inductive Signal := SIGINT | SIGTERM.

Global Instance Signal_eq_dec : EqDecision Signal.
Proof. solve_decision. Defined.

(** Exceptions that occur in the two modules.  [SystemExit c] is what
    [sys.exit(c)] raises. *)
Inductive Exc :=
| KeyboardInterrupt
| SocketError
| AttributeError
| UnboundLocalError
| SystemExit (code : Z)
| OtherError (what : string).

Global Instance Exc_eq_dec : EqDecision Exc.
Proof. solve_decision. Defined.

(** Ways in which a computation does not return a value. *)
Inductive Abort :=
| Raised (e : Exc)      (* an exception is propagating *)
| Blocked               (* the call in progress never returns *)
| Killed (sg : Signal)  (* the OS default action ended the process *)
| OutOfFuel.            (* the iteration budget given to a loop ran out *)

Inductive Res (A : Type) :=
| Ret (a : A)
| Stop (ab : Abort).
Arguments Ret {A} a.
Arguments Stop {A} ab.

(** Exit status of the interpreter when [main] ends with the given
    result: 0 on return, the code of [SystemExit], 1 for any other
    uncaught exception; no exit status when the process was ended by a
    signal or is still there. *)
Definition exit_status {A} (r : Res A) : option Z :=
  match r with
  | Ret _ => Some 0
  | Stop (Raised (SystemExit c)) => Some c
  | Stop (Raised _) => Some 1
  | Stop (Killed _) => None
  | Stop Blocked => None
  | Stop OutOfFuel => None
  end.

(** ** The monad *)

Record Run (St Ev A : Type) := mkRun {
  events : list Ev;
  final : St;
  result : Res A;
}.
Arguments mkRun {St Ev A} events final result.
Arguments events {St Ev A} r.
Arguments final {St Ev A} r.
Arguments result {St Ev A} r.

Definition Py (St Ev A : Type) : Type := St → Run St Ev A.

Section PyMonad.
Context {St Ev : Type}.

Definition ret {A} (a : A) : Py St Ev A :=
  λ s, mkRun [] s (Ret a).

Definition bind {A B} (m : Py St Ev A) (f : A → Py St Ev B) : Py St Ev B :=
  λ s,
    let r := m s in
    match result r with
    | Ret a =>
        let r' := f a (final r) in
        mkRun (events r ++ events r') (final r') (result r')
    | Stop ab => mkRun (events r) (final r) (Stop ab)
    end.

Definition emit (e : Ev) : Py St Ev unit :=
  λ s, mkRun [e] s (Ret tt).

Definition stop {A} (ab : Abort) : Py St Ev A :=
  λ s, mkRun [] s (Stop ab).

Definition raise {A} (e : Exc) : Py St Ev A := stop (Raised e).

Definition get : Py St Ev St :=
  λ s, mkRun [] s (Ret s).

Definition modify (f : St → St) : Py St Ev unit :=
  λ s, mkRun [] (f s) (Ret tt).

(** [try: body except <catches>: handler].  Only a propagating
    exception can be caught; the handler runs in the state the body
    left behind. *)
Definition try_except {A} (body : Py St Ev A) (catches : Exc → bool)
    (handler : Py St Ev A) : Py St Ev A :=
  λ s,
    let r := body s in
    match result r with
    | Stop (Raised e) =>
        if catches e then
          let r' := handler (final r) in
          mkRun (events r ++ events r') (final r') (result r')
        else r
    | _ => r
    end.
End PyMonad.

Global Instance Py_ret {St Ev} : MRet (Py St Ev) := λ A, ret.
Global Instance Py_bind {St Ev} : MBind (Py St Ev) := λ A B f m, bind m f.

(** ** Worker processes *)

(** A Python object stored as an attribute of the current process.
    [truthy] is its truth value; [cleanup] is what calling its cleanup
    method does ([close()] on a connection, [dispose()] on an engine):
    [None] when the call returns, [Some e] when it raises [e]. *)
Record PyObj := mkObj {
  obj_id : nat;
  truthy : bool;
  cleanup : option Exc;
}.

Inductive Disposition :=
| SIG_DFL
| SIG_IGN
| default_int_handler          (* the interpreter's own SIGINT handler *)
| Handler_recv_sigint.         (* [recv_sigint] of coffeeserver.py *)

Global Instance Disposition_eq_dec : EqDecision Disposition.
Proof. solve_decision. Defined.

(** The signal dispositions of a process. *)
Record SigTable := mkSigTable {
  on_SIGINT : Disposition;
  on_SIGTERM : Disposition;
}.

Definition disposition (t : SigTable) (sg : Signal) : Disposition :=
  match sg with
  | SIGINT => on_SIGINT t
  | SIGTERM => on_SIGTERM t
  end.

(** [signal.signal(sg, d)] *)
Definition signal_signal (sg : Signal) (d : Disposition) (t : SigTable) : SigTable :=
  match sg with
  | SIGINT => mkSigTable d (on_SIGTERM t)
  | SIGTERM => mkSigTable (on_SIGINT t) d
  end.

(** The table of a fresh interpreter. *)
Definition python_default_signals : SigTable :=
  mkSigTable default_int_handler SIG_DFL.

(** [def recv_sigint(signum, stack): raise KeyboardInterrupt]; the
    stack frame argument is not used and is left out. *)
Definition recv_sigint {St Ev} (signum : Signal) : Py St Ev unit :=
  raise KeyboardInterrupt.

(** What a process does when the signal [sg] is delivered to it. *)
Definition deliver {St Ev} (t : SigTable) (sg : Signal) : Py St Ev unit :=
  match disposition t sg with
  | SIG_IGN => ret tt
  | SIG_DFL => stop (Killed sg)
  | default_int_handler => raise KeyboardInterrupt
  | Handler_recv_sigint => recv_sigint sg
  end.

(** [mp.current_process()]: the process object with its dynamically
    added attributes, and the signal dispositions of that process. *)
Record Process := mkProcess {
  name : string;
  attrs : gmap string PyObj;
  sigs : SigTable;
}.

Inductive WEvent :=
| WSignal (sg : Signal) (d : Disposition)   (* signal.signal(sg, d) *)
| WGetDb (database_url : string)     (* database.get_astrocoffee_db(url) *)
| WDelAttr (attr : string)           (* del currproc.<attr> *)
| WConnClose (o : PyObj)             (* currproc.connection.close() *)
| WEngineDispose (o : PyObj)         (* currproc.engine.dispose() *)
| WAuthorsQuery (conn meta : PyObj) (include_affiliations : bool)
| WPrint (msg : string).

Definition set_attr (k : string) (o : PyObj) (p : Process) : Process :=
  mkProcess (name p) (<[k := o]> (attrs p)) (sigs p).

Definition del_attr (k : string) (p : Process) : Process :=
  mkProcess (name p) (delete k (attrs p)) (sigs p).

Definition set_signal (sg : Signal) (d : Disposition) (p : Process) : Process :=
  mkProcess (name p) (attrs p) (signal_signal sg d (sigs p)).

(** Truth value of [getattr(currproc, k, None)]. *)
Definition getattr_truthy (k : string) (p : Process) : bool :=
  match attrs p !! k with
  | Some o => truthy o
  | None => false
  end.

(** [if getattr(currproc, k, None): body] *)
Definition if_getattr (k : string) (body : Py Process WEvent unit)
    : Py Process WEvent unit :=
  currproc ← get;
  if getattr_truthy k currproc then body else mret tt.

(** [currproc.k]: AttributeError when the attribute is not there. *)
Definition getattr (k : string) : Py Process WEvent PyObj :=
  currproc ← get;
  match attrs currproc !! k with
  | Some o => mret o
  | None => raise AttributeError
  end.

(** [del currproc.k] *)
Definition delattr (k : string) : Py Process WEvent unit :=
  currproc ← get;
  match attrs currproc !! k with
  | Some _ => emit (WDelAttr k) ;; modify (del_attr k)
  | None => raise AttributeError
  end.

(** [currproc.k = o] *)
Definition setattr (k : string) (o : PyObj) : Py Process WEvent unit :=
  modify (set_attr k o).

(** Calling the cleanup method of an object. *)
Definition call_cleanup (o : PyObj) : Py Process WEvent unit :=
  match cleanup o with
  | None => mret tt
  | Some e => raise e
  end.

(** [database.get_astrocoffee_db] belongs to a module outside these two
    files; it is a parameter of the initializer: it returns the triple
    (engine, connection, metadata) or raises. *)
Definition DbFactory := string → Res (PyObj * PyObj * PyObj).

Definition setup_worker (get_astrocoffee_db : DbFactory) (database_url : string)
    : Py Process WEvent unit :=
  emit (WSignal SIGINT SIG_IGN) ;;
  modify (set_signal SIGINT SIG_IGN) ;;
  emit (WGetDb database_url) ;;
  match get_astrocoffee_db database_url with
  | Ret (engine, connection, metadata) =>
      setattr "engine" engine ;;
      setattr "connection" connection ;;
      setattr "metadata" metadata
  | Stop ab => stop ab
  end.

Definition shutdown_message (p : Process) : string :=
  "Shutting down database engine in process: " +:+ name p.

Definition close_database : Py Process WEvent unit :=
  if_getattr "metadata"
    (delattr "metadata") ;;
  if_getattr "connection"
    (c ← getattr "connection";
     emit (WConnClose c) ;;
     call_cleanup c ;;
     delattr "connection") ;;
  if_getattr "engine"
    (e ← getattr "engine";
     emit (WEngineDispose e) ;;
     call_cleanup e ;;
     delattr "engine") ;;
  currproc ← get;
  emit (WPrint (shutdown_message currproc)).

(** *** coffee_workers.get_local_authors *)

(** A Python dict keeps its items in insertion order: a list of
    key-value pairs; [keys()] enumerates the keys in that order. *)
Definition PyDict (K V : Type) := list (K * V).

Definition dict_keys {K V} (d : PyDict K V) : list K := d.*1.

(** [authors.get_local_authors((conn, meta), include_affiliations=...)]
    is code of the [authors] module, outside these two files: a
    parameter, returning the mapping of local authors or raising. *)
Definition AuthorsBackend (K V : Type) := PyObj → PyObj → bool → Res (PyDict K V).

Definition get_local_authors {K V} (authors_get_local_authors : AuthorsBackend K V)
    (include_affiliations : bool) : Py Process WEvent (list K * PyDict K V) :=
  conn ← getattr "connection";
  meta ← getattr "metadata";
  emit (WAuthorsQuery conn meta include_affiliations) ;;
  match authors_get_local_authors conn meta include_affiliations with
  | Ret local_authors =>
      let author_list := dict_keys local_authors in
      mret (author_list, local_authors)
  | Stop ab => stop ab
  end.

(** ** The worker pool *)

(** Modelled from the spec: the pool class
    [astrocoffee.vendored.futures37.process.ProcessPoolExecutor] is not
    among the source files.  Following sections 2, 3, 4.1 and 4.2 of the
    design: a pool has a fixed number of worker slots; every worker runs
    the initializer once when it is spawned; a worker whose initializer
    fails does not come up - the failure is fatal for that worker, which
    ends there, takes no work and runs no finalizer; [shutdown()] stops
    accepting submissions and makes every worker that is up run the
    finalizer and terminate, swallowing errors of the finalizer; a
    second [shutdown()] does nothing.  [w_started] records whether the
    initializer returned. *)
Record Worker := mkWorker {
  w_proc : Process;
  w_started : bool;
  w_alive : bool;
  w_trace : list WEvent;
  w_initializer_runs : nat;
  w_finalizer_runs : nat;
}.

Record Pool := mkPool {
  pool_size : nat;
  accepting : bool;
  workers : list Worker;
}.

Definition spawn_worker (initializer : Py Process WEvent unit)
    (inherited : SigTable) (i : nat) : Worker :=
  let r := initializer (mkProcess ("ForkProcess-" +:+ pretty i) ∅ inherited) in
  let up := match result r with Ret _ => true | Stop _ => false end in
  mkWorker (final r) up up (events r) 1 0.

Definition pool_create (max_workers : Z) (initializer : Py Process WEvent unit)
    (inherited : SigTable) : Pool :=
  let n := Z.to_nat max_workers in
  mkPool n true (spawn_worker initializer inherited <$> seq 0 n).

Definition finalize_worker (finalizer : Py Process WEvent unit) (w : Worker) : Worker :=
  if w_alive w then
    let r := finalizer (w_proc w) in
    mkWorker (final r) (w_started w) false (w_trace w ++ events r)
      (w_initializer_runs w) (S (w_finalizer_runs w))
  else w.

Definition pool_shutdown (finalizer : Py Process WEvent unit) (p : Pool) : Pool :=
  if accepting p
  then mkPool (pool_size p) false (finalize_worker finalizer <$> workers p)
  else p.


(** ** The ingest job *)

(** Modelled from the spec: [astrocoffee.arxivupdate.periodic_arxiv_update]
    is not among the source files.  Following section 4.4 of the design:
    the job takes the entries the external source currently lists,
    compares them with the stored ones by their natural key (listing
    date and identifier) and persists only the new ones.  The store
    refuses a second row with a key it already holds. *)
Module Ingest.

Record Entry := mkEntry {
  listing_date : string;
  identifier : string;
  title : string;
}.

Definition Key := (string * string)%type.

Definition key (e : Entry) : Key := (listing_date e, identifier e).

Inductive StoreError := DuplicateInsert (k : Key).

(** The backend's insert, with its uniqueness constraint on the key. *)
Definition insert_row (e : Entry) (store : gmap Key Entry)
    : StoreError + gmap Key Entry :=
  match store !! key e with
  | Some _ => inl (DuplicateInsert (key e))
  | None => inr (<[key e := e]> store)
  end.

Fixpoint ingest (fetched : list Entry) (store : gmap Key Entry)
    : StoreError + gmap Key Entry :=
  match fetched with
  | [] => inr store
  | e :: rest =>
      match store !! key e with
      | Some _ => ingest rest store
      | None =>
          match insert_row e store with
          | inl err => inl err
          | inr store' => ingest rest store'
          end
      end
  end.

Definition entry_count (store : gmap Key Entry) : nat := size store.

End Ingest.

(** ** The server process *)

(** The loaded settings module, as far as [main] reads it. *)
Record Conf := mkConf {
  max_workers : Z;
  database_url : string;
  server_address : string;
  server_port : Z;
  asset_path : string;
  template_path : string;
  session_secret : string;
}.

Inductive Level := INFO | WARNING | ERROR.

Inductive Msg :=
| MsgLoadingConfig (conf_file : string)
| MsgNoConfig (basedir firstrun_file : string)
| MsgGenerating (basedir : string)
| MsgCouldNotLoad (conf_file : string)
| MsgPortInUse (address : string) (port next : Z)
| MsgNoFreePort (maxtries : Z)
| MsgStarted (address : string) (port : Z)
| MsgWorkers (max_workers : Z) (ioloop_spec : string)
| MsgBasedir (basedir : string)
| MsgCtrlC.

(** The calls [main] makes into other modules, with the arguments that
    matter here. *)
Inductive Site :=
| ParseCommandLine                                  (* tornado.options.parse_command_line() *)
| ModuleFromString (conf_file : string)             (* modtools.module_from_string *)
| SetupCoffeeServer (basedir : string)              (* firstrun.setup_coffee_server *)
| RequestsGet (url : string)
| ProcessPoolExecutor (max_workers : Z) (database_url : string)
| Application (c : Conf)                            (* tornado.web.Application *)
| HTTPServer                                        (* tornado.httpserver.HTTPServer *)
| Listen (port : Z) (address : string)              (* http_server.listen *)
| SignalSignal (sg : Signal) (d : Disposition)      (* signal.signal *)
| IOLoopCurrent                                     (* tornado.ioloop.IOLoop.current() *)
| PeriodicArxivUpdate (c : Conf)                    (* periodic_arxiv_update_fn() *)
| PeriodicCallback (callback_time jitter : Q)       (* loop.PeriodicCallback(...) *)
| PeriodicCallbackStart                             (* periodic_arxiv_updater.start() *)
| LoopStart                                         (* loop.start() *)
| LoopStop                                          (* loop.stop() *)
| ExecutorShutdown                                  (* EXECUTOR.shutdown() *)
| TimeSleep (seconds : Z).                          (* time.sleep *)

Inductive Event :=
| Call (s : Site)
| Log (lvl : Level) (m : Msg).

Inductive CallOutcome :=
| Returns
| Throws (e : Exc)
| Never.

(** Everything [main] reads from outside: command line, platform, file
    system (the answer to the n-th [os.path.exists] query), what each
    library call does, which signal (if any) reaches the process while
    a call is in progress, and the values returned by the configuration
    loader and the first-run set-up. *)
Record Env := mkEnv {
  options_basedir : string;
  sys_platform : string;
  ioloop_spec : string;
  fs : nat → string → bool;
  outcome : Site → CallOutcome;
  signal_during : Site → option Signal;
  conf_module : option Conf;
  generated_conf_file : string;
  get_astrocoffee_db : DbFactory;
}.

(** The state of the server process: the number of file-system queries
    made so far, the signal dispositions, the pool object behind
    [EXECUTOR], and whether the local variable [loop] is bound. *)
Record World := mkWorld {
  env : Env;
  fs_clock : nat;
  sigtable : SigTable;
  executor : option Pool;
  loop_bound : bool;
}.

Definition tick (w : World) : World :=
  mkWorld (env w) (S (fs_clock w)) (sigtable w) (executor w) (loop_bound w).

Definition set_sigtable (f : SigTable → SigTable) (w : World) : World :=
  mkWorld (env w) (fs_clock w) (f (sigtable w)) (executor w) (loop_bound w).

Definition set_executor (f : option Pool → option Pool) (w : World) : World :=
  mkWorld (env w) (fs_clock w) (sigtable w) (f (executor w)) (loop_bound w).

Definition bind_loop_var (w : World) : World :=
  mkWorld (env w) (fs_clock w) (sigtable w) (executor w) true.

Definition initial_world (e : Env) : World :=
  mkWorld e 0 python_default_signals None false.

Abbreviation M := (Py World Event).

(** A library call: it is recorded; a signal arriving while it is in
    progress is handled according to the current dispositions; otherwise
    the call ends the way the environment says. *)
Definition call (s : Site) : M unit :=
  emit (Call s) ;;
  w ← get;
  match signal_during (env w) s with
  | Some sg => deliver (sigtable w) sg
  | None => mret tt
  end ;;
  match outcome (env w) s with
  | Returns => mret tt
  | Throws e => raise e
  | Never => stop Blocked
  end.

Definition log (lvl : Level) (m : Msg) : M unit := emit (Log lvl m).

Definition sys_exit {A} (code : Z) : M A := raise (SystemExit code).

Definition os_path_exists (path : string) : M bool :=
  w ← get;
  modify tick ;;
  mret (fs (env w) (fs_clock w) path).

(** [a and b] and [not a] on conditions that query the file system. *)
Definition py_and (a b : M bool) : M bool :=
  x ← a; if (x : bool) then b else mret false.

Definition py_not (a : M bool) : M bool :=
  x ← a; mret (negb (x : bool)).

(** [os.path.join] for the two joins of [main], whose second argument
    is a plain file name. *)
Definition os_path_join (dir file : string) : string :=
  if bool_decide (dir = "") then file
  else if String.eqb (String.substring (String.length dir - 1)%nat 1 dir) "/"
       then dir +:+ file
       else dir +:+ "/" +:+ file.

(** Lines 162-189: find and load the settings module.  The result is
    what the loader returned: [None] stands for a value that is not a
    usable settings module. *)
Definition load_config : M (option Conf) :=
  w ← get;
  let BASEDIR := options_basedir (env w) in
  let firstrun_file := os_path_join BASEDIR ".coffee-first-run-done" in
  let conf_file := os_path_join BASEDIR "coffee_settings.py" in
  c1 ← py_and (os_path_exists firstrun_file) (os_path_exists conf_file);
  if (c1 : bool) then
    log INFO (MsgLoadingConfig conf_file) ;;
    call (ModuleFromString conf_file) ;;
    mret (conf_module (env w))
  else
    c2 ← py_and (os_path_exists firstrun_file)
                (py_not (os_path_exists conf_file));
    if (c2 : bool) then
      log ERROR (MsgNoConfig BASEDIR firstrun_file) ;;
      sys_exit 1
    else
      c3 ← py_not (os_path_exists firstrun_file);
      if (c3 : bool) then
        log WARNING (MsgGenerating BASEDIR) ;;
        call (SetupCoffeeServer BASEDIR) ;;
        let conf_file := generated_conf_file (env w) in
        call (ModuleFromString conf_file) ;;
        mret (conf_module (env w))
      else
        log ERROR (MsgCouldNotLoad conf_file) ;;
        sys_exit 1.

(** Reading an attribute of [CONF]. *)
Definition conf_settings (CONF : option Conf) : M Conf :=
  match CONF with
  | Some c => mret c
  | None => raise AttributeError
  end.

Definition maxtries : Z := 10.

Definition is_socket_error (e : Exc) : bool := bool_decide (e = SocketError).

Definition is_keyboard_interrupt (e : Exc) : bool :=
  bool_decide (e = KeyboardInterrupt).

(** Lines 389-396, the [while] loop; [fuel] bounds the number of
    iterations the model follows.  The loop variables are
    [(portok, thistry, serverport)]. *)
Fixpoint bind_loop (fuel : nat) (serveraddress : string)
    (portok : bool) (thistry serverport : Z) : M (bool * Z * Z) :=
  if negb portok && (thistry <? maxtries) then
    match fuel with
    | O => stop OutOfFuel
    | S fuel' =>
        '(portok', serverport') ←
          try_except
            (call (Listen serverport serveraddress) ;;
             mret (true, serverport))
            is_socket_error
            (log WARNING (MsgPortInUse serveraddress serverport (serverport + 1)) ;;
             mret (portok, serverport + 1));
        bind_loop fuel' serveraddress portok' thistry serverport'
    end
  else mret (portok, thistry, serverport).

(** Lines 414-436, the body of the [try].  The float literals
    [86400000.0] and [0.1] are written as the rationals they denote. *)
Definition serve (c : Conf) : M unit :=
  call IOLoopCurrent ;;
  modify bind_loop_var ;;
  call (PeriodicArxivUpdate c) ;;
  call (PeriodicCallback (86400000 # 1) (1 # 10)) ;;
  call PeriodicCallbackStart ;;
  call LoopStart.

(** Lines 438-441, the [except KeyboardInterrupt] clause. *)
Definition on_keyboard_interrupt : M unit :=
  log INFO MsgCtrlC ;;
  w ← get;
  if loop_bound w then call LoopStop else raise UnboundLocalError.

Definition executor_shutdown : M unit :=
  call ExecutorShutdown ;;
  modify (set_executor (fmap (pool_shutdown close_database))).

(** Lines 202-411 of [main]: from the platform check to the
    registration of the signal handlers; the value is the settings
    module, once its first attribute has been read. *)
Definition build_server (fuel : nat) (CONF : option Conf) : M Conf :=
  w ← get;
  (if String.eqb (sys_platform (env w)) "darwin"
   then call (RequestsGet "http://captive.apple.com/hotspot-detect.html")
   else mret tt) ;;
  c ← conf_settings CONF;
  call (ProcessPoolExecutor (max_workers c) (database_url c)) ;;
  w ← get;
  modify (set_executor (λ _, Some
    (pool_create (max_workers c)
       (setup_worker (get_astrocoffee_db (env w)) (database_url c))
       (sigtable w)))) ;;
  call (Application c) ;;
  call HTTPServer ;;
  '(portok, thistry, serverport) ←
    bind_loop fuel (server_address c) false 0 (server_port c);
  (if negb portok
   then log ERROR (MsgNoFreePort maxtries) ;; sys_exit 1
   else mret tt) ;;
  log INFO (MsgStarted (server_address c) serverport) ;;
  log INFO (MsgWorkers (max_workers c) (ioloop_spec (env w))) ;;
  log INFO (MsgBasedir (options_basedir (env w))) ;;
  call (SignalSignal SIGINT Handler_recv_sigint) ;;
  modify (set_sigtable (signal_signal SIGINT Handler_recv_sigint)) ;;
  call (SignalSignal SIGTERM Handler_recv_sigint) ;;
  modify (set_sigtable (signal_signal SIGTERM Handler_recv_sigint)) ;;
  mret c.

(** Lines 147-411 of [main]: everything before the [try]. *)
Definition startup (fuel : nat) : M Conf :=
  call ParseCommandLine ;;
  CONF ← load_config;
  build_server fuel CONF.

(** Lines 414-445 of [main]: the [try] statement and what follows it. *)
Definition run_server (c : Conf) : M unit :=
  try_except (serve c) is_keyboard_interrupt on_keyboard_interrupt ;;
  executor_shutdown ;;
  call (TimeSleep 2).

Definition main (fuel : nat) : M unit :=
  c ← startup fuel;
  run_server c.

(** ** Sample environments *)

Definition sample_conf : Conf :=
  mkConf 2 "sqlite:///astro-coffee.sqlite" "0.0.0.0" 5005
         "/srv/coffee/static" "/srv/coffee/templates" "secret".

Definition sample_db : DbFactory :=
  λ _, Ret (mkObj 1 true None, mkObj 2 true None, mkObj 3 true None).

(** A quiet environment: the base directory is set up, every call
    returns, ports from [first_free] on are free, and [sig] arrives
    while the event loop runs. *)
Definition sample_env (first_free : Z) (sig : option Signal) : Env :=
  mkEnv "/srv/coffee" "linux" "asyncio"
    (λ _ _, true)
    (λ s, match s with
          | Listen port _ => if port <? first_free then Throws SocketError else Returns
          | LoopStart => Never
          | _ => Returns
          end)
    (λ s, match s with LoopStart => sig | _ => None end)
    (Some sample_conf)
    "/srv/coffee/coffee_settings.py"
    sample_db.

Definition fresh_process : Process := mkProcess "ForkProcess-0" ∅ python_default_signals.

(** A worker whose connection refuses to close. *)
Definition stale_connection : PyObj :=
  mkObj 2 true (Some (OtherError "connection lost")).

Definition stale_db : DbFactory :=
  λ _, Ret (mkObj 1 true None, stale_connection, mkObj 3 true None).

Definition sample_authors : AuthorsBackend string string :=
  λ _ _ incl,
    Ret [("Ada Lovelace", if incl then "Analytical Engines" else "");
         ("Grace Hopper", if incl then "Navy" else "")].

(** A worker after a successful initializer, and one whose connection
    will refuse to close. *)
Definition ready_worker : Process :=
  final (setup_worker sample_db "sqlite:///astro-coffee.sqlite" fresh_process).

Definition stale_worker : Process :=
  final (setup_worker stale_db "sqlite:///astro-coffee.sqlite" fresh_process).

(** A worker whose engine refuses to be disposed of. *)
Definition stuck_engine : PyObj := mkObj 1 true (Some (OtherError "pool busy")).

Definition stuck_worker : Process :=
  mkProcess "ForkProcess-1" (<["engine" := stuck_engine]> ∅) python_default_signals.

(** ** Vocabulary of the statements *)

(** Every event a computation records satisfies [P], from any state. *)
Definition emits_only {St Ev A} (P : Ev → bool) (m : Py St Ev A) : Prop :=
  ∀ s, Forall (λ e, P e = true) (events (m s)).

(** The computation leaves the state as it found it. *)
Definition pure_state {St Ev A} (m : Py St Ev A) : Prop :=
  ∀ s, final (m s) = s.

(** The computation changes nothing but the count of file-system queries. *)
Definition only_ticks {A} (m : M A) : Prop :=
  ∀ w, ∃ n, final (m w) = mkWorld (env w) n (sigtable w) (executor w) (loop_bound w).

(** Partial correctness: when [m] returns, [Q] holds of its value and
    the state it leaves. *)
Definition returns_with {St Ev A} (m : Py St Ev A) (s : St) (Q : A → St → Prop) : Prop :=
  ∀ a, result (m s) = Ret a → Q a (final (m s)).

(** The cleanup call on the handle stored under [k], if any, returns. *)
Definition cleanup_returns (k : string) (p : Process) : bool :=
  match attrs p !! k with
  | Some o => if truthy o then bool_decide (cleanup o = None) else true
  | None => true
  end.

(** The steps [close_database] takes for one handle: the call of its
    cleanup method ([mk] records it), then the removal of the attribute. *)
Definition handle_steps (k : string) (mk : PyObj → WEvent) (p : Process) : list WEvent :=
  match attrs p !! k with
  | Some o => if truthy o then [mk o; WDelAttr k] else []
  | None => []
  end.

Definition metadata_steps (p : Process) : list WEvent :=
  if getattr_truthy "metadata" p then [WDelAttr "metadata"] else [].

(** [del currproc.k], done only when the attribute holds a true value. *)
Definition drop_truthy (k : string) (p : Process) : Process :=
  if getattr_truthy k p then del_attr k p else p.

(** The process as a complete run of [close_database] leaves it. *)
Definition cleared (p : Process) : Process :=
  drop_truthy "engine" (drop_truthy "connection" (drop_truthy "metadata" p)).

(** The attribute an event of the finalizer acts on. *)
Definition acts_on (e : WEvent) : option string :=
  match e with
  | WDelAttr k => Some k
  | WConnClose _ => Some "connection"
  | WEngineDispose _ => Some "engine"
  | _ => None
  end.

Definition is_print (e : WEvent) : bool :=
  match e with WPrint _ => true | _ => false end.

Definition is_listen (e : Event) : bool :=
  match e with Call (Listen _ _) => true | _ => false end.

Definition is_port_error (e : Event) : bool :=
  match e with Log ERROR (MsgNoFreePort _) => true | _ => false end.

(** The calls that make up the scheduling phase of lines 416-436. *)
Definition is_scheduling (e : Event) : bool :=
  match e with
  | Call IOLoopCurrent | Call (PeriodicArxivUpdate _) | Call (PeriodicCallback _ _)
  | Call PeriodicCallbackStart | Call LoopStart => true
  | _ => false
  end.


(** What the configuration phase (lines 147-189) can record. *)
Definition config_event (e : Event) : bool :=
  match e with
  | Call ParseCommandLine | Call (ModuleFromString _) | Call (SetupCoffeeServer _) => true
  | Log _ (MsgLoadingConfig _) | Log _ (MsgNoConfig _ _)
  | Log _ (MsgGenerating _) | Log _ (MsgCouldNotLoad _) => true
  | _ => false
  end.

(** What lines 202-411 can record. *)
Definition build_event (e : Event) : bool :=
  match e with
  | Call (RequestsGet _) | Call (ProcessPoolExecutor _ _) | Call (Application _)
  | Call HTTPServer | Call (Listen _ _) | Call (SignalSignal _ _) => true
  | Log _ (MsgPortInUse _ _ _) | Log _ (MsgNoFreePort _) | Log _ (MsgStarted _ _)
  | Log _ (MsgWorkers _ _) | Log _ (MsgBasedir _) => true
  | _ => false
  end.

(** What lines 147-411 can record. *)
Definition startup_event (e : Event) : bool :=
  config_event e || build_event e.



(** What the shutdown path (lines 438-445) can record. *)
Definition teardown_event (e : Event) : bool :=
  match e with
  | Log INFO MsgCtrlC | Call LoopStop | Call ExecutorShutdown | Call (TimeSleep _) => true
  | _ => false
  end.


(** The scheduling phase in full, as [serve] records it. *)
Definition scheduling_calls (c : Conf) : list Event :=
  [Call IOLoopCurrent; Call (PeriodicArxivUpdate c);
   Call (PeriodicCallback (86400000 # 1) (1 # 10));
   Call PeriodicCallbackStart; Call LoopStart].

(** The shutdown path in full. *)
Definition shutdown_calls : list Event :=
  [Log INFO MsgCtrlC; Call LoopStop; Call ExecutorShutdown; Call (TimeSleep 2)].

(** The call at [s] returns and no signal arrives while it runs. *)
Definition quiet (e : Env) (s : Site) : Prop :=
  outcome e s = Returns ∧ signal_during e s = None.


(** A pool as the constructor leaves it: the workers that are up are
    those whose initializer returned. *)
Definition pool_fresh (p : Pool) : Prop :=
  accepting p = true ∧
  Forall (λ wk, w_alive wk = w_started wk ∧ w_initializer_runs wk = 1%nat ∧
                w_finalizer_runs wk = 0%nat) (workers p).




(** ** Further vocabulary and samples *)

(** One of the three attributes the lifecycle hooks manage. *)
Definition context_attr (k : string) : bool :=
  bool_decide (k = "engine") || bool_decide (k = "connection") ||
  bool_decide (k = "metadata").

Definition is_dispose (e : WEvent) : bool :=
  match e with WEngineDispose _ => true | _ => false end.

(** A process that carries an attribute of its own and a connection
    attribute holding a false value. *)
Definition odd_worker : Process :=
  mkProcess "ForkProcess-2"
    (<["daemon" := mkObj 7 true None]> (<["connection" := mkObj 8 false None]> ∅))
    python_default_signals.

(** The record of [k] failed attempts of the bind loop, from [port] on:
    each [listen] call is followed by the warning of line 394. *)
Fixpoint failed_attempts (addr : string) (port : Z) (k : nat) : list Event :=
  match k with
  | O => []
  | S k' =>
      Call (Listen port addr) ::
      Log WARNING (MsgPortInUse addr port (port + 1)) ::
      failed_attempts addr (port + 1) k'
  end.

(** [listen] on [port] raises socket.error and no signal arrives. *)
Definition port_taken (e : Env) (addr : string) (port : Z) : Prop :=
  outcome e (Listen port addr) = Throws SocketError ∧
  signal_during e (Listen port addr) = None.

(** The answers of the file system do not change between queries. *)
Definition stable_fs (e : Env) : Prop :=
  ∀ n m path, fs e n path = fs e m path.

Definition is_could_not_load (e : Event) : bool :=
  match e with Log _ (MsgCouldNotLoad _) => true | _ => false end.

(** The record of the platform check of lines 202-204. *)
Definition platform_calls (e : Env) : list Event :=
  if String.eqb (sys_platform e) "darwin"
  then [Call (RequestsGet "http://captive.apple.com/hotspot-detect.html")]
  else [].

(** The record of a start-up that succeeds: the command line, the
    configuration phase [cfg], the platform check, the pool, the
    application and the HTTP server, [k] failed attempts to bind, the
    successful one, the three messages, the two signal handlers. *)
Definition startup_record (e : Env) (c : Conf) (cfg : list Event) (k : nat)
    : list Event :=
  Call ParseCommandLine :: cfg ++ platform_calls e ++
  [Call (ProcessPoolExecutor (max_workers c) (database_url c));
   Call (Application c); Call HTTPServer] ++
  failed_attempts (server_address c) (server_port c) k ++
  [Call (Listen (server_port c + Z.of_nat k) (server_address c));
   Log INFO (MsgStarted (server_address c) (server_port c + Z.of_nat k));
   Log INFO (MsgWorkers (max_workers c) (ioloop_spec e));
   Log INFO (MsgBasedir (options_basedir e));
   Call (SignalSignal SIGINT Handler_recv_sigint);
   Call (SignalSignal SIGTERM Handler_recv_sigint)].

(** Partial correctness with the record: when [m] returns, [Q] holds of
    its value, the state it leaves and the events it recorded. *)
Definition returns_recording {St Ev A} (m : Py St Ev A) (s : St)
    (Q : A → St → list Ev → Prop) : Prop :=
  ∀ a, result (m s) = Ret a → Q a (final (m s)) (events (m s)).

(** Every port is taken. *)
Definition crowded_env : Env :=
  mkEnv "/srv/coffee" "linux" "asyncio"
    (λ _ _, true)
    (λ s, match s with
          | Listen _ _ => Throws SocketError
          | LoopStart => Never
          | _ => Returns
          end)
    (λ _, None) (Some sample_conf) "/srv/coffee/coffee_settings.py" sample_db.

(** The first port cannot be bound for a reason other than being taken. *)
Definition forbidden_port_env : Env :=
  mkEnv "/srv/coffee" "linux" "asyncio"
    (λ _ _, true)
    (λ s, match s with
          | Listen _ _ => Throws (OtherError "permission denied")
          | LoopStart => Never
          | _ => Returns
          end)
    (λ _, None) (Some sample_conf) "/srv/coffee/coffee_settings.py" sample_db.

(** The first arxiv update fails. *)
Definition failing_update_env : Env :=
  mkEnv "/srv/coffee" "linux" "asyncio"
    (λ _ _, true)
    (λ s, match s with
          | PeriodicArxivUpdate _ => Throws (OtherError "arxiv unreachable")
          | LoopStart => Never
          | _ => Returns
          end)
    (λ _, None) (Some sample_conf) "/srv/coffee/coffee_settings.py" sample_db.

(** An interrupt arrives while the loop object is being obtained. *)
Definition early_interrupt_env : Env :=
  mkEnv "/srv/coffee" "linux" "asyncio"
    (λ _ _, true)
    (λ s, match s with LoopStart => Never | _ => Returns end)
    (λ s, match s with IOLoopCurrent => Some SIGINT | _ => None end)
    (Some sample_conf) "/srv/coffee/coffee_settings.py" sample_db.

(** A terminate signal arrives during the first arxiv update. *)
Definition update_interrupt_env : Env :=
  mkEnv "/srv/coffee" "linux" "asyncio" (λ _ _, true) (λ _, Returns)
    (λ s, match s with PeriodicArxivUpdate _ => Some SIGTERM | _ => None end)
    (Some sample_conf) "/srv/coffee/coffee_settings.py" sample_db.

(** The event loop is stopped from inside and [loop.start()] returns. *)
Definition stopped_loop_env : Env :=
  mkEnv "/srv/coffee" "darwin" "uvloop"
    (λ _ _, true) (λ _, Returns) (λ _, None)
    (Some sample_conf) "/srv/coffee/coffee_settings.py" sample_db.

(** A base directory that has not been set up yet. *)
Definition first_run_env : Env :=
  mkEnv "/srv/coffee" "linux" "asyncio"
    (λ _ _, false) (λ _, Returns) (λ _, None)
    (Some sample_conf) "/srv/coffee/generated_settings.py" sample_db.

(** ** The scheduling phase on tornado's loop, and what main reports *)


(** The timer is started, or the loop is. *)
Definition is_arming (e : Event) : bool :=
  match e with
  | Call PeriodicCallbackStart | Call LoopStart => true
  | _ => false
  end.

Definition is_pool_shutdown (e : Event) : bool :=
  match e with Call ExecutorShutdown => true | _ => false end.



(** The pool [main] constructs at lines 213-216, in the world [w] it
    starts from: the initializer is [setup_worker] on the configured
    database, and the workers inherit the signal table of [main] as it
    is at that line. *)
Definition main_pool (w : World) (c : Conf) : Pool :=
  pool_create (max_workers c)
    (setup_worker (get_astrocoffee_db (env w)) (database_url c)) (sigtable w).

(** The loop object is tornado's [IOLoop]: [PeriodicCallback] is a class
    of the module [tornado.ioloop], not an attribute of the loop, so the
    expression [loop.PeriodicCallback] of line 428 raises AttributeError.
    The base directory is set up, the port is free, and [sig] arrives
    during the first arxiv update. *)
Definition tornado_env (sig : option Signal) : Env :=
  mkEnv "/srv/coffee" "linux" "asyncio"
    (λ _ _, true)
    (λ s, match s with
          | PeriodicCallback _ _ => Throws AttributeError
          | LoopStart => Never
          | _ => Returns
          end)
    (λ s, match s with PeriodicArxivUpdate _ => sig | _ => None end)
    (Some sample_conf) "/srv/coffee/coffee_settings.py" sample_db.

(** * Properties *)

(** ** The monad *)

Section PyFacts.
Context {St Ev : Type}.

Lemma run_bind {A B} (m : Py St Ev A) (f : A → Py St Ev B) (s : St) :
  (m ≫= f) s =
  match result (m s) with
  | Ret a =>
      mkRun (events (m s) ++ events (f a (final (m s))))
            (final (f a (final (m s)))) (result (f a (final (m s))))
  | Stop ab => mkRun (events (m s)) (final (m s)) (Stop ab)
  end.
Proof. reflexivity. Qed.

Lemma run_bind_ret {A B} (m : Py St Ev A) (f : A → Py St Ev B) s a :
  result (m s) = Ret a →
  (m ≫= f) s = mkRun (events (m s) ++ events (f a (final (m s))))
                     (final (f a (final (m s)))) (result (f a (final (m s)))).
Proof. intros H. rewrite run_bind, H. reflexivity. Qed.

Lemma run_bind_stop {A B} (m : Py St Ev A) (f : A → Py St Ev B) s ab :
  result (m s) = Stop ab →
  (m ≫= f) s = mkRun (events (m s)) (final (m s)) (Stop ab).
Proof. intros H. rewrite run_bind, H. reflexivity. Qed.

Lemma run_eta {A} (r : Run St Ev A) : r = mkRun (events r) (final r) (result r).
Proof. destruct r; reflexivity. Qed.

(** *** Events *)

Lemma emits_only_ret {A} P (a : A) : emits_only (St:=St) (Ev:=Ev) P (mret a).
Proof. intros s. constructor. Qed.

Lemma emits_only_stop {A} P ab : emits_only (St:=St) (Ev:=Ev) (A:=A) P (stop ab).
Proof. intros s. constructor. Qed.

Lemma emits_only_raise {A} P e : emits_only (St:=St) (Ev:=Ev) (A:=A) P (raise e).
Proof. apply emits_only_stop. Qed.

Lemma emits_only_get P : emits_only (St:=St) (Ev:=Ev) P get.
Proof. intros s. constructor. Qed.

Lemma emits_only_modify P f : emits_only (St:=St) (Ev:=Ev) P (modify f).
Proof. intros s. constructor. Qed.

Lemma emits_only_emit (P : Ev → bool) e :
  P e = true → emits_only (St:=St) P (emit e).
Proof. intros H s. repeat constructor. exact H. Qed.

Lemma emits_only_bind {A B} P (m : Py St Ev A) (f : A → Py St Ev B) :
  emits_only P m → (∀ a, emits_only P (f a)) → emits_only P (m ≫= f).
Proof.
  intros Hm Hf s. rewrite run_bind.
  destruct (result (m s)) as [a|ab]; simpl.
  - apply Forall_app. split; [apply Hm | apply Hf].
  - apply Hm.
Qed.

Lemma emits_only_try_except {A} P (body handler : Py St Ev A) catches :
  emits_only P body → emits_only P handler →
  emits_only P (try_except body catches handler).
Proof.
  intros Hb Hh s. unfold try_except.
  destruct (result (body s)) as [a|[e| | |]]; try apply Hb.
  destruct (catches e); [|apply Hb].
  simpl. apply Forall_app. split; [apply Hb | apply Hh].
Qed.

(** *** State *)

Lemma returns_with_bind {A B} (m : Py St Ev A) (f : A → Py St Ev B) s Q :
  returns_with m s (λ a s', returns_with (f a) s' Q) →
  returns_with (m ≫= f) s Q.
Proof.
  intros H b. rewrite run_bind.
  destruct (result (m s)) as [a|ab] eqn:E; simpl; [|discriminate].
  intros Hb. exact (H a E b Hb).
Qed.

Lemma returns_with_weaken {A} (m : Py St Ev A) s (Q Q' : A → St → Prop) :
  returns_with m s Q → (∀ a s', Q a s' → Q' a s') → returns_with m s Q'.
Proof. intros H HQ a E. apply HQ, H, E. Qed.

Lemma returns_with_pure {A} (m : Py St Ev A) s (Q : A → St → Prop) :
  pure_state m → (∀ a, Q a s) → returns_with m s Q.
Proof. intros Hp HQ a _. rewrite Hp. apply HQ. Qed.

End PyFacts.

(** ** Worker lifecycle hooks *)

Lemma if_getattr_run k body p :
  if_getattr k body p = if getattr_truthy k p then body p else mkRun [] p (Ret tt).
Proof.
  unfold if_getattr. rewrite run_bind. simpl.
  destruct (getattr_truthy k p); [symmetry; apply run_eta | reflexivity].
Qed.

Lemma metadata_block_run p :
  if_getattr "metadata" (delattr "metadata") p =
  mkRun (metadata_steps p) (drop_truthy "metadata" p) (Ret tt).
Proof.
  rewrite if_getattr_run. unfold metadata_steps, drop_truthy.
  destruct (getattr_truthy "metadata" p) eqn:T; [|reflexivity].
  unfold getattr_truthy in T. unfold delattr. rewrite run_bind. simpl.
  destruct (attrs p !! "metadata"); [reflexivity | discriminate].
Qed.

Lemma handle_block_run k mk p :
  if_getattr k (o ← getattr k; emit (mk o) ;; call_cleanup o ;; delattr k) p =
  match attrs p !! k with
  | Some o =>
      if truthy o then
        match cleanup o with
        | None => mkRun [mk o; WDelAttr k] (del_attr k p) (Ret tt)
        | Some e => mkRun [mk o] p (Stop (Raised e))
        end
      else mkRun [] p (Ret tt)
  | None => mkRun [] p (Ret tt)
  end.
Proof.
  rewrite if_getattr_run. unfold getattr_truthy.
  destruct (attrs p !! k) as [o|] eqn:L; [|reflexivity].
  destruct (truthy o); [|reflexivity].
  rewrite run_bind. unfold getattr at 1 2 3. rewrite run_bind. simpl. rewrite L. simpl.
  unfold call_cleanup, delattr.
  destruct (cleanup o); simpl; [reflexivity|].
  rewrite L. reflexivity.
Qed.

Lemma handle_block_ok k mk p :
  cleanup_returns k p = true →
  if_getattr k (o ← getattr k; emit (mk o) ;; call_cleanup o ;; delattr k) p =
  mkRun (handle_steps k mk p) (drop_truthy k p) (Ret tt).
Proof.
  intros H. rewrite handle_block_run.
  unfold cleanup_returns in H. unfold handle_steps, drop_truthy, getattr_truthy.
  destruct (attrs p !! k) as [o|]; [|reflexivity].
  destruct (truthy o); [|reflexivity].
  destruct (cleanup o); [|reflexivity].
  apply bool_decide_eq_true in H. discriminate.
Qed.

Lemma attrs_drop_truthy_ne k k' p :
  k ≠ k' → attrs (drop_truthy k p) !! k' = attrs p !! k'.
Proof.
  intros Hne. unfold drop_truthy. destruct (getattr_truthy k p); [|reflexivity].
  simpl. by rewrite lookup_delete_ne.
Qed.

Lemma name_drop_truthy k p : name (drop_truthy k p) = name p.
Proof. unfold drop_truthy. by destruct (getattr_truthy k p). Qed.

Lemma getattr_truthy_drop_ne k k' p :
  k ≠ k' → getattr_truthy k' (drop_truthy k p) = getattr_truthy k' p.
Proof. intros Hne. unfold getattr_truthy. by rewrite attrs_drop_truthy_ne. Qed.

Lemma getattr_truthy_drop k p : getattr_truthy k (drop_truthy k p) = false.
Proof.
  unfold drop_truthy. destruct (getattr_truthy k p) eqn:T; [|exact T].
  unfold getattr_truthy. simpl. by rewrite lookup_delete_eq.
Qed.

Lemma cleanup_returns_drop_ne k k' p :
  k ≠ k' → cleanup_returns k' (drop_truthy k p) = cleanup_returns k' p.
Proof. intros Hne. unfold cleanup_returns. by rewrite attrs_drop_truthy_ne. Qed.

Lemma handle_steps_drop_ne k k' mk p :
  k ≠ k' → handle_steps k' mk (drop_truthy k p) = handle_steps k' mk p.
Proof. intros Hne. unfold handle_steps. by rewrite attrs_drop_truthy_ne. Qed.

Lemma shutdown_message_drop k p :
  shutdown_message (drop_truthy k p) = shutdown_message p.
Proof. unfold shutdown_message. by rewrite name_drop_truthy. Qed.

(** A complete run of the finalizer, when the two cleanup calls return. *)
Lemma close_database_ok p :
  cleanup_returns "connection" p = true →
  cleanup_returns "engine" p = true →
  close_database p =
  mkRun (metadata_steps p ++ handle_steps "connection" WConnClose p ++
         handle_steps "engine" WEngineDispose p ++ [WPrint (shutdown_message p)])
        (cleared p) (Ret tt).
Proof.
  intros Hc He. unfold close_database.
  rewrite run_bind, metadata_block_run. simpl.
  rewrite run_bind, handle_block_ok
    by (rewrite cleanup_returns_drop_ne; done).
  simpl.
  rewrite run_bind, handle_block_ok
    by (rewrite !cleanup_returns_drop_ne; done).
  simpl.
  rewrite !handle_steps_drop_ne, !shutdown_message_drop by done.
  reflexivity.
Qed.

(** The finalizer when [connection.close()] raises. *)
Lemma close_database_close_raises p o e :
  attrs p !! "connection" = Some o → truthy o = true → cleanup o = Some e →
  close_database p =
  mkRun (metadata_steps p ++ [WConnClose o]) (drop_truthy "metadata" p) (Stop (Raised e)).
Proof.
  intros L T C. unfold close_database.
  rewrite run_bind, metadata_block_run. simpl.
  rewrite run_bind, handle_block_run.
  rewrite attrs_drop_truthy_ne, L, T, C by done.
  reflexivity.
Qed.

(** The finalizer when [engine.dispose()] raises. *)
Lemma close_database_dispose_raises p o e :
  cleanup_returns "connection" p = true →
  attrs p !! "engine" = Some o → truthy o = true → cleanup o = Some e →
  close_database p =
  mkRun (metadata_steps p ++ handle_steps "connection" WConnClose p ++ [WEngineDispose o])
        (drop_truthy "connection" (drop_truthy "metadata" p)) (Stop (Raised e)).
Proof.
  intros Hc L T C. unfold close_database.
  rewrite run_bind, metadata_block_run. simpl.
  rewrite run_bind, handle_block_ok
    by (rewrite cleanup_returns_drop_ne; done).
  simpl.
  rewrite run_bind, handle_block_run.
  rewrite !attrs_drop_truthy_ne, L, T, C by done.
  simpl. rewrite handle_steps_drop_ne by done. reflexivity.
Qed.

Lemma close_database_cases p :
  (cleanup_returns "connection" p = true ∧ cleanup_returns "engine" p = true) ∨
  (∃ o e, attrs p !! "connection" = Some o ∧ truthy o = true ∧ cleanup o = Some e) ∨
  (cleanup_returns "connection" p = true ∧
   ∃ o e, attrs p !! "engine" = Some o ∧ truthy o = true ∧ cleanup o = Some e).
Proof.
  unfold cleanup_returns.
  destruct (attrs p !! "connection") as [c|] eqn:Lc.
  - destruct (truthy c) eqn:Tc; [destruct (cleanup c) as [e|] eqn:Cc|].
    + right; left. by exists c, e.
    + destruct (attrs p !! "engine") as [g|];
        [destruct (truthy g) eqn:Tg; [destruct (cleanup g) as [e|] eqn:Cg|]|].
      * right; right. split; [done|]. by exists g, e.
      * by left.
      * by left.
      * by left.
    + destruct (attrs p !! "engine") as [g|];
        [destruct (truthy g) eqn:Tg; [destruct (cleanup g) as [e|] eqn:Cg|]|].
      * right; right. split; [done|]. by exists g, e.
      * by left.
      * by left.
      * by left.
  - destruct (attrs p !! "engine") as [g|];
      [destruct (truthy g) eqn:Tg; [destruct (cleanup g) as [e|] eqn:Cg|]|].
    + right; right. split; [done|]. by exists g, e.
    + by left.
    + by left.
    + by left.
Qed.

Lemma elem_of_metadata_steps e p :
  e ∈ metadata_steps p → e = WDelAttr "metadata" ∧ is_Some (attrs p !! "metadata").
Proof.
  unfold metadata_steps, getattr_truthy.
  destruct (attrs p !! "metadata") as [o|]; [|by intros ?%elem_of_nil].
  destruct (truthy o); [|by intros ?%elem_of_nil].
  intros ->%list_elem_of_singleton. eauto.
Qed.

Lemma elem_of_handle_steps e k mk p :
  e ∈ handle_steps k mk p →
  ∃ o, attrs p !! k = Some o ∧ (e = mk o ∨ e = WDelAttr k).
Proof.
  unfold handle_steps.
  destruct (attrs p !! k) as [o|]; [|by intros ?%elem_of_nil].
  destruct (truthy o); [|by intros ?%elem_of_nil].
  intros H. exists o. split; [done|].
  apply elem_of_cons in H as [->|H]; [by left|].
  apply list_elem_of_singleton in H as ->. by right.
Qed.

(** Every recorded step of the finalizer acts on a handle that is present. *)
Lemma close_database_acts_on_present p e k :
  e ∈ events (close_database p) → acts_on e = Some k → is_Some (attrs p !! k).
Proof.
  intros He Hk.
  destruct (close_database_cases p) as [[Hc Hg]|[(o & x & L & T & C)|[Hc (o & x & L & T & C)]]].
  - rewrite close_database_ok in He by done. simpl in He.
    rewrite !elem_of_app in He.
    destruct He as [He|[He|[He|He]]].
    + apply elem_of_metadata_steps in He as [-> ?]. simpl in Hk. by simplify_eq.
    + apply elem_of_handle_steps in He as (o & L & [->| ->]); simpl in Hk;
        simplify_eq; eauto.
    + apply elem_of_handle_steps in He as (o & L & [->| ->]); simpl in Hk;
        simplify_eq; eauto.
    + apply list_elem_of_singleton in He as ->. discriminate.
  - rewrite (close_database_close_raises p o x) in He by done. simpl in He.
    rewrite elem_of_app in He. destruct He as [He|He].
    + apply elem_of_metadata_steps in He as [-> ?]. simpl in Hk. by simplify_eq.
    + apply list_elem_of_singleton in He as ->. simpl in Hk. simplify_eq. eauto.
  - rewrite (close_database_dispose_raises p o x) in He by done. simpl in He.
    rewrite !elem_of_app in He. destruct He as [He|[He|He]].
    + apply elem_of_metadata_steps in He as [-> ?]. simpl in Hk. by simplify_eq.
    + apply elem_of_handle_steps in He as (o' & L' & [->| ->]); simpl in Hk;
        simplify_eq; eauto.
    + apply list_elem_of_singleton in He as ->. simpl in Hk. simplify_eq. eauto.
Qed.

Lemma close_database_returns_inv p :
  result (close_database p) = Ret tt →
  cleanup_returns "connection" p = true ∧ cleanup_returns "engine" p = true.
Proof.
  intros H.
  destruct (close_database_cases p) as [?|[(o & x & L & T & C)|[Hc (o & x & L & T & C)]]];
    [done| |].
  - rewrite (close_database_close_raises p o x) in H by done. discriminate.
  - rewrite (close_database_dispose_raises p o x) in H by done. discriminate.
Qed.

Lemma getattr_truthy_cleared k p :
  k = "metadata" ∨ k = "connection" ∨ k = "engine" →
  getattr_truthy k (cleared p) = false.
Proof.
  unfold cleared. intros [->|[->| ->]].
  - rewrite !getattr_truthy_drop_ne by done. apply getattr_truthy_drop.
  - rewrite getattr_truthy_drop_ne by done. apply getattr_truthy_drop.
  - apply getattr_truthy_drop.
Qed.

Lemma drop_truthy_absent k p : getattr_truthy k p = false → drop_truthy k p = p.
Proof. intros H. unfold drop_truthy. by rewrite H. Qed.

Lemma handle_steps_absent k mk p : getattr_truthy k p = false → handle_steps k mk p = [].
Proof.
  unfold getattr_truthy, handle_steps. destruct (attrs p !! k) as [o|]; [|done].
  by intros ->.
Qed.

Lemma cleanup_returns_absent k p : getattr_truthy k p = false → cleanup_returns k p = true.
Proof.
  unfold getattr_truthy, cleanup_returns. destruct (attrs p !! k) as [o|]; [|done].
  by intros ->.
Qed.

(** With none of the three handles in place the finalizer only prints. *)
Lemma close_database_nothing_to_do p :
  getattr_truthy "metadata" p = false →
  getattr_truthy "connection" p = false →
  getattr_truthy "engine" p = false →
  close_database p = mkRun [WPrint (shutdown_message p)] p (Ret tt).
Proof.
  intros Hm Hc Hg.
  rewrite close_database_ok by (by apply cleanup_returns_absent).
  unfold metadata_steps, cleared. rewrite Hm.
  rewrite !handle_steps_absent by done.
  rewrite (drop_truthy_absent "metadata") by done.
  rewrite (drop_truthy_absent "connection") by done.
  rewrite (drop_truthy_absent "engine") by done.
  reflexivity.
Qed.

Lemma attrs_cleared_deleted k p :
  k = "metadata" ∨ k = "connection" ∨ k = "engine" →
  getattr_truthy k p = true → attrs (cleared p) !! k = None.
Proof.
  unfold cleared. intros [->|[->| ->]] H.
  - rewrite !attrs_drop_truthy_ne by done.
    unfold drop_truthy. rewrite H. simpl. apply lookup_delete_eq.
  - rewrite attrs_drop_truthy_ne by done.
    unfold drop_truthy at 1. rewrite getattr_truthy_drop_ne, H by done.
    simpl. apply lookup_delete_eq.
  - unfold drop_truthy at 1. rewrite !getattr_truthy_drop_ne, H by done.
    simpl. apply lookup_delete_eq.
Qed.

(** C2, as the code has it.  [close_database] takes its steps in the
    order: drop the metadata cache, close the connection, dispose of the
    engine, print the completion message; it returns when the two
    cleanup calls return.  It has no exception handler: when
    [connection.close()] or [engine.dispose()] raises, that exception
    leaves [close_database], and the steps after the failing call,
    the completion message among them, are not taken. *)
Theorem close_database_steps_in_order (p : Process) :
  (cleanup_returns "connection" p = true →
   cleanup_returns "engine" p = true →
   result (close_database p) = Ret tt ∧
   events (close_database p) =
     metadata_steps p ++ handle_steps "connection" WConnClose p ++
     handle_steps "engine" WEngineDispose p ++ [WPrint (shutdown_message p)]) ∧
  (∀ o e, attrs p !! "connection" = Some o → truthy o = true → cleanup o = Some e →
   result (close_database p) = Stop (Raised e) ∧
   events (close_database p) = metadata_steps p ++ [WConnClose o]) ∧
  (∀ o e, cleanup_returns "connection" p = true →
   attrs p !! "engine" = Some o → truthy o = true → cleanup o = Some e →
   result (close_database p) = Stop (Raised e) ∧
   events (close_database p) =
     metadata_steps p ++ handle_steps "connection" WConnClose p ++ [WEngineDispose o]).
Proof.
  split; [|split].
  - intros Hc Hg. by rewrite close_database_ok.
  - intros o e L T C. by rewrite (close_database_close_raises p o e).
  - intros o e Hc L T C. by rewrite (close_database_dispose_raises p o e).
Qed.

Lemma close_database_steps_in_order_witness :
  (result (close_database ready_worker) = Ret tt ∧
   events (close_database ready_worker) =
     [WDelAttr "metadata";
      WConnClose (mkObj 2 true None); WDelAttr "connection";
      WEngineDispose (mkObj 1 true None); WDelAttr "engine";
      WPrint "Shutting down database engine in process: ForkProcess-0"]) ∧
  (result (close_database stale_worker) = Stop (Raised (OtherError "connection lost")) ∧
   events (close_database stale_worker) =
     [WDelAttr "metadata"; WConnClose stale_connection]) ∧
  (result (close_database stuck_worker) = Stop (Raised (OtherError "pool busy")) ∧
   events (close_database stuck_worker) = [WEngineDispose stuck_engine]).
Proof.
  split; [|split].
  - apply (proj1 (close_database_steps_in_order ready_worker)); reflexivity.
  - apply (proj1 (proj2 (close_database_steps_in_order stale_worker))
             stale_connection (OtherError "connection lost")); reflexivity.
  - apply (proj2 (proj2 (close_database_steps_in_order stuck_worker))
             stuck_engine (OtherError "pool busy")); reflexivity.
Defined.

(** C2, as the claim words it, fails: a worker whose connection raises
    on [close()] makes [close_database] raise, and no completion
    message is printed. *)
Lemma close_database_lets_errors_escape :
  result (close_database stale_worker) = Stop (Raised (OtherError "connection lost")) ∧
  existsb is_print (events (close_database stale_worker)) = false.
Proof. split; reflexivity. Qed.

(** C9.  [close_database] acts only on handles that are present: every
    step it records concerns an attribute the process has, so on a
    process whose initializer never ran it only prints the completion
    message, and on a partly built context it skips what is missing and
    returns as long as the cleanup calls of the handles it does find
    return.  After a call that returned, the three attributes are gone
    (none holds a true value, and those that did are deleted), and a
    second call takes no cleanup step: it prints the message and leaves
    the process as it is. *)
Theorem close_database_tolerant_and_idempotent (p : Process) :
  (∀ e k, e ∈ events (close_database p) → acts_on e = Some k →
          is_Some (attrs p !! k)) ∧
  (attrs p = ∅ →
   close_database p = mkRun [WPrint (shutdown_message p)] p (Ret tt)) ∧
  (cleanup_returns "connection" p = true → cleanup_returns "engine" p = true →
   result (close_database p) = Ret tt) ∧
  (result (close_database p) = Ret tt →
   let p' := final (close_database p) in
   (∀ k, k = "metadata" ∨ k = "connection" ∨ k = "engine" →
         getattr_truthy k p' = false ∧
         (getattr_truthy k p = true → attrs p' !! k = None)) ∧
   close_database p' = mkRun [WPrint (shutdown_message p)] p' (Ret tt)).
Proof.
  split; [|split; [|split]].
  - intros e k. apply close_database_acts_on_present.
  - intros Hempty. apply close_database_nothing_to_do;
      unfold getattr_truthy; by rewrite Hempty, lookup_empty.
  - intros Hc Hg. by rewrite close_database_ok.
  - intros Hret. apply close_database_returns_inv in Hret as [Hc Hg].
    rewrite close_database_ok by done. simpl. split.
    + intros k Hk. split; [by apply getattr_truthy_cleared|].
      by apply attrs_cleared_deleted.
    + rewrite close_database_nothing_to_do by (apply getattr_truthy_cleared; auto).
      unfold cleared. by rewrite !shutdown_message_drop.
Qed.

Lemma close_database_tolerant_and_idempotent_witness :
  close_database fresh_process =
    mkRun [WPrint "Shutting down database engine in process: ForkProcess-0"]
          fresh_process (Ret tt) ∧
  result (close_database stuck_worker) = Stop (Raised (OtherError "pool busy")) ∧
  result (close_database ready_worker) = Ret tt ∧
  attrs (final (close_database ready_worker)) !! "connection" = None ∧
  close_database (final (close_database ready_worker)) =
    mkRun [WPrint "Shutting down database engine in process: ForkProcess-0"]
          (final (close_database ready_worker)) (Ret tt).
Proof.
  destruct (close_database_tolerant_and_idempotent fresh_process) as (_ & Hnone & _ & _).
  destruct (close_database_tolerant_and_idempotent ready_worker) as (_ & _ & Hok & Hagain).
  split; [apply Hnone; reflexivity|].
  split; [reflexivity|].
  split; [apply Hok; reflexivity|].
  destruct (Hagain (Hok eq_refl eq_refl)) as [Hgone Htwice].
  split; [|exact Htwice].
  apply (Hgone "connection"); [auto | reflexivity].
Defined.

(** ** The initializer and signals *)

Lemma setup_worker_sigs db url p :
  sigs (final (setup_worker db url p)) = signal_signal SIGINT SIG_IGN (sigs p).
Proof.
  unfold setup_worker. rewrite !run_bind. simpl.
  destruct (db url) as [[[eng conn] meta]|ab]; reflexivity.
Qed.

(** C3, as the code has it.  Whatever the database does, after
    [setup_worker] the worker ignores SIGINT: a delivered SIGINT changes
    nothing and raises nothing.  The disposition of SIGTERM is the one
    the worker had before; the initializer does not touch it. *)
Theorem setup_worker_ignores_sigint (db : DbFactory) (url : string) (p : Process) :
  let p' := final (setup_worker db url p) in
  disposition (sigs p') SIGINT = SIG_IGN ∧
  (∀ q : Process, deliver (Ev:=WEvent) (sigs p') SIGINT q = mkRun [] q (Ret tt)) ∧
  disposition (sigs p') SIGTERM = disposition (sigs p) SIGTERM.
Proof.
  cbv zeta. rewrite setup_worker_sigs. split; [reflexivity|]. split; [|reflexivity].
  intros q. reflexivity.
Qed.

(** C3, as the claim words it, fails for the terminate signal: a fresh
    worker that ran the initializer still has the default disposition
    for SIGTERM, and is ended by it. *)
Lemma setup_worker_leaves_sigterm :
  ¬ (∀ sg, disposition (sigs ready_worker) sg = SIG_IGN) ∧
  result (deliver (Ev:=WEvent) (sigs ready_worker) SIGTERM ready_worker)
    = Stop (Killed SIGTERM).
Proof.
  split; [|reflexivity].
  intros H. specialize (H SIGTERM). vm_compute in H. discriminate.
Qed.

(** ** The local-authors query *)

Lemma setup_worker_returns_inv db url p :
  result (setup_worker db url p) = Ret tt →
  ∃ eng conn meta,
    db url = Ret (eng, conn, meta) ∧
    attrs (final (setup_worker db url p)) !! "connection" = Some conn ∧
    attrs (final (setup_worker db url p)) !! "metadata" = Some meta.
Proof.
  unfold setup_worker. rewrite !run_bind. simpl.
  destruct (db url) as [[[eng conn] meta]|ab]; simpl; [|discriminate].
  intros _. exists eng, conn, meta. split; [done|].
  rewrite lookup_insert_ne, !lookup_insert_eq by done. done.
Qed.

Lemma getattr_run k p o :
  attrs p !! k = Some o → getattr k p = mkRun [] p (Ret o).
Proof. intros L. unfold getattr. rewrite run_bind. simpl. by rewrite L. Qed.

Lemma get_local_authors_run {K V} (backend : AuthorsBackend K V) incl p conn meta :
  attrs p !! "connection" = Some conn →
  attrs p !! "metadata" = Some meta →
  get_local_authors backend incl p =
  mkRun [WAuthorsQuery conn meta incl] p
    match backend conn meta incl with
    | Ret d => Ret (dict_keys d, d)
    | Stop ab => Stop ab
    end.
Proof.
  intros Lc Lm. unfold get_local_authors.
  rewrite run_bind, (getattr_run _ _ _ Lc). simpl.
  rewrite run_bind, (getattr_run _ _ _ Lm). simpl.
  destruct (backend conn meta incl); reflexivity.
Qed.

(** C10.  On a worker whose context the initializer has set,
    [get_local_authors] asks the backend with that worker's connection
    and metadata; when the backend returns the mapping [d], the result
    is the pair of the keys of [d], in the order of [d], and [d] itself.
    The first component has as many elements as the mapping has items,
    and its i-th element is the key of the i-th item.  (An exception of
    the backend passes through.) *)
Theorem get_local_authors_shape {K V} (db : DbFactory) (url : string) (p0 : Process)
    (backend : AuthorsBackend K V) (include_affiliations : bool) :
  result (setup_worker db url p0) = Ret tt →
  let p := final (setup_worker db url p0) in
  ∃ conn meta,
    attrs p !! "connection" = Some conn ∧ attrs p !! "metadata" = Some meta ∧
    result (get_local_authors backend include_affiliations p) =
      match backend conn meta include_affiliations with
      | Ret d => Ret (dict_keys d, d)
      | Stop ab => Stop ab
      end ∧
    ∀ author_list local_authors,
      result (get_local_authors backend include_affiliations p)
        = Ret (author_list, local_authors) →
      backend conn meta include_affiliations = Ret local_authors ∧
      author_list = dict_keys local_authors ∧
      length author_list = length local_authors ∧
      ∀ i, author_list !! i = fst <$> local_authors !! i.
Proof.
  intros Hinit p.
  destruct (setup_worker_returns_inv db url p0 Hinit) as (eng & conn & meta & _ & Lc & Lm).
  exists conn, meta. split; [exact Lc|]. split; [exact Lm|].
  unfold p. rewrite (get_local_authors_run backend _ _ conn meta Lc Lm). simpl.
  split; [reflexivity|].
  intros al la. destruct (backend conn meta include_affiliations) as [d|ab]; [|discriminate].
  intros [= <- <-]. split; [reflexivity|]. split; [reflexivity|].
  unfold dict_keys. split; [apply length_fmap | intros i; apply list_lookup_fmap].
Qed.

Lemma get_local_authors_shape_witness :
  result (get_local_authors sample_authors true ready_worker) =
    Ret (["Ada Lovelace"; "Grace Hopper"],
         [("Ada Lovelace", "Analytical Engines"); ("Grace Hopper", "Navy")]).
Proof.
  destruct (get_local_authors_shape sample_db "sqlite:///astro-coffee.sqlite"
              fresh_process sample_authors true eq_refl)
    as (conn & meta & Lc & Lm & Hres & _).
  unfold ready_worker. rewrite Hres.
  assert (conn = mkObj 2 true None) as -> by (vm_compute in Lc; congruence).
  assert (meta = mkObj 3 true None) as -> by (vm_compute in Lm; congruence).
  reflexivity.
Defined.

(** ** The ingest job *)

Section IngestFacts.
Import Ingest.

Lemma ingest_stores_all (fetched : list Entry) (store : gmap Key Entry) :
  ∃ store',
    ingest fetched store = inr store' ∧
    store ⊆ store' ∧
    ∀ e, e ∈ fetched → is_Some (store' !! key e).
Proof.
  revert store. induction fetched as [|e rest IH]; intros store; simpl.
  - exists store. split; [done|]. split; [done|]. by intros e ?%elem_of_nil.
  - destruct (store !! key e) as [x|] eqn:L.
    + destruct (IH store) as (s' & Hrun & Hsub & Hall).
      exists s'. split; [done|]. split; [done|].
      intros e' [->|Hin]%elem_of_cons; [|by apply Hall].
      exists x. by eapply lookup_weaken.
    + unfold insert_row. rewrite L.
      destruct (IH (<[key e := e]> store)) as (s' & Hrun & Hsub & Hall).
      exists s'. split; [done|]. split.
      * etrans; [|exact Hsub]. by apply insert_subseteq.
      * intros e' [->|Hin]%elem_of_cons; [|by apply Hall].
        exists e. eapply lookup_weaken; [|exact Hsub]. apply lookup_insert_eq.
Qed.

Lemma ingest_known_is_noop (fetched : list Entry) (store : gmap Key Entry) :
  (∀ e, e ∈ fetched → is_Some (store !! key e)) →
  ingest fetched store = inr store.
Proof.
  induction fetched as [|e rest IH]; intros Hall; simpl; [done|].
  destruct (Hall e) as [x ->]; [by left|].
  apply IH. intros e' Hin. apply Hall. by right.
Qed.

(** C7.  Running the ingest job twice on the same listing: the first
    run ends without a duplicate-insert error, the second one too, and
    the second leaves the store, hence its entry count, as the first
    run left it. *)
Theorem ingest_twice_same_count (fetched : list Entry) (store : gmap Key Entry) :
  ∃ store1 store2,
    ingest fetched store = inr store1 ∧
    ingest fetched store1 = inr store2 ∧
    store2 = store1 ∧
    entry_count store2 = entry_count store1.
Proof.
  destruct (ingest_stores_all fetched store) as (s1 & Hrun & _ & Hall).
  exists s1, s1. split; [done|]. split; [|done].
  by apply ingest_known_is_noop.
Qed.

End IngestFacts.

(** ** Library calls *)

Arguments call : simpl never.
Arguments load_config : simpl never.
Arguments build_server : simpl never.
Arguments run_server : simpl never.

Lemma call_run s w :
  call s w = mkRun [Call s] w (result (call s w)).
Proof.
  unfold call, deliver, recv_sigint, raise, stop.
  rewrite !run_bind; simpl.
  destruct (signal_during (env w) s) as [sg|]; simpl;
    [destruct (disposition (sigtable w) sg); simpl|];
    destruct (outcome (env w) s); reflexivity.
Qed.

Lemma call_events s w : events (call s w) = [Call s].
Proof. by rewrite call_run. Qed.

Lemma call_final s w : final (call s w) = w.
Proof. by rewrite call_run. Qed.

Lemma call_quiet s w :
  quiet (env w) s → call s w = mkRun [Call s] w (Ret tt).
Proof.
  intros [Ho Hs]. unfold call. rewrite !run_bind; simpl.
  by rewrite Hs, Ho.
Qed.

(** A signal that arrives during a call and is handled by [recv_sigint]
    makes the call raise KeyboardInterrupt. *)
Lemma call_interrupted s w sg :
  signal_during (env w) s = Some sg →
  disposition (sigtable w) sg = Handler_recv_sigint →
  call s w = mkRun [Call s] w (Stop (Raised KeyboardInterrupt)).
Proof.
  intros Hs Hd. unfold call, deliver. rewrite !run_bind; simpl.
  by rewrite Hs, Hd.
Qed.

(** Sequencing after a call, a state change, a recorded event, a read. *)
Lemma run_call_then {B} s (k : M B) w :
  (call s ;; k) w =
  match result (call s w) with
  | Ret _ => mkRun (Call s :: events (k w)) (final (k w)) (result (k w))
  | Stop ab => mkRun [Call s] w (Stop ab)
  end.
Proof. rewrite run_bind, call_events, call_final. reflexivity. Qed.

Lemma run_modify_then {St Ev B} (f : St → St) (k : Py St Ev B) s :
  (modify f ;; k) s = k (f s).
Proof. rewrite run_bind. simpl. symmetry. apply run_eta. Qed.

Lemma run_emit_then {St Ev B} (e : Ev) (k : Py St Ev B) s :
  (emit e ;; k) s = mkRun (e :: events (k s)) (final (k s)) (result (k s)).
Proof. rewrite run_bind. reflexivity. Qed.

Lemma run_get_then {St Ev B} (f : St → Py St Ev B) s :
  (get ≫= f) s = f s s.
Proof. rewrite run_bind. simpl. symmetry. apply run_eta. Qed.

(** ** More on the monad: state, and events that end a run *)

Section PyStateFacts.
Context {St Ev : Type}.

Lemma emits_only_weaken {A} (P Q : Ev → bool) (m : Py St Ev A) :
  (∀ e, P e = true → Q e = true) → emits_only P m → emits_only Q m.
Proof. intros HPQ Hm s. eapply Forall_impl; [apply Hm|]. exact HPQ. Qed.

(** As [emits_only_bind], knowing that the first computation returned. *)
Lemma emits_only_bind_ret {A B} (P : Ev → bool) (m : Py St Ev A) (f : A → Py St Ev B) :
  emits_only P m →
  (∀ s a, result (m s) = Ret a → Forall (λ e, P e = true) (events (f a (final (m s))))) →
  emits_only P (m ≫= f).
Proof.
  intros Hm Hf s. rewrite run_bind.
  destruct (result (m s)) as [a|ab] eqn:E; simpl; [|apply Hm].
  apply Forall_app. split; [apply Hm | by apply Hf].
Qed.

Lemma pure_state_ret {A} (a : A) : pure_state (St:=St) (Ev:=Ev) (mret a).
Proof. by intros s. Qed.

Lemma pure_state_stop {A} ab : pure_state (St:=St) (Ev:=Ev) (A:=A) (stop ab).
Proof. by intros s. Qed.

Lemma pure_state_emit e : pure_state (St:=St) (Ev:=Ev) (emit e).
Proof. by intros s. Qed.

Lemma pure_state_get : pure_state (St:=St) (Ev:=Ev) get.
Proof. by intros s. Qed.

Lemma pure_state_bind {A B} (m : Py St Ev A) (f : A → Py St Ev B) :
  pure_state m → (∀ a, pure_state (f a)) → pure_state (m ≫= f).
Proof.
  intros Hm Hf s. rewrite run_bind.
  destruct (result (m s)) as [a|ab]; simpl; [|apply Hm].
  by rewrite Hf, Hm.
Qed.

Lemma pure_state_try_except {A} (body handler : Py St Ev A) catches :
  pure_state body → pure_state handler →
  pure_state (try_except body catches handler).
Proof.
  intros Hb Hh s. unfold try_except.
  destruct (result (body s)) as [a|[e| | |]]; try apply Hb.
  destruct (catches e); [|apply Hb].
  simpl. by rewrite Hh, Hb.
Qed.

Lemma returns_with_ret {A} (a : A) s (Q : A → St → Prop) :
  Q a s → returns_with (Ev:=Ev) (mret a) s Q.
Proof. by intros HQ b [= <-]. Qed.

Lemma returns_with_stop {A} ab s (Q : A → St → Prop) :
  returns_with (Ev:=Ev) (stop ab) s Q.
Proof. by intros b. Qed.

Lemma returns_with_get s (Q : St → St → Prop) :
  Q s s → returns_with (Ev:=Ev) get s Q.
Proof. by intros HQ b [= <-]. Qed.

Lemma returns_with_modify f s (Q : unit → St → Prop) :
  Q tt (f s) → returns_with (Ev:=Ev) (modify f) s Q.
Proof. by intros HQ [] _. Qed.

Lemma returns_with_emit (e : Ev) s (Q : unit → St → Prop) :
  Q tt s → returns_with (emit e) s Q.
Proof. by intros HQ [] _. Qed.



End PyStateFacts.

(** ** The phases of [main]: what they record, what they change *)

Lemma emits_only_call (P : Event → bool) s :
  P (Call s) = true → emits_only P (call s).
Proof. intros H w. rewrite call_events. by repeat constructor. Qed.

Lemma emits_only_log (P : Event → bool) lvl m :
  P (Log lvl m) = true → emits_only (St:=World) P (log lvl m).
Proof. apply emits_only_emit. Qed.

Lemma pure_state_call s : pure_state (call s).
Proof. intros w. apply call_final. Qed.

Lemma returns_with_call s w (Q : unit → World → Prop) :
  Q tt w → returns_with (call s) w Q.
Proof. intros HQ [] _. by rewrite call_final. Qed.

Ltac emits_step :=
  first
    [ apply emits_only_log; reflexivity
    | apply emits_only_call; reflexivity
    | apply emits_only_ret
    | apply emits_only_get
    | apply emits_only_modify
    | apply emits_only_stop
    | apply emits_only_raise
    | apply emits_only_try_except
    | match goal with
      | |- emits_only _ (call _) => fail 2
      | |- emits_only _ (log _ _) => fail 2
      | |- emits_only _ (_ ≫= _) => apply emits_only_bind; [|intros ?]
      end
    | match goal with
      | |- emits_only _ (if ?b then _ else _) => destruct b
      | |- emits_only _ (match ?x with _ => _ end) => destruct x
      end ].

Ltac emits := repeat emits_step.

Lemma emits_only_os_path_exists P path : emits_only P (os_path_exists path).
Proof. unfold os_path_exists. emits. Qed.

Lemma emits_only_py_and P a b :
  emits_only P a → emits_only P b → emits_only P (py_and a b).
Proof. intros Ha Hb. unfold py_and. emits; assumption. Qed.

Lemma emits_only_py_not P a : emits_only P a → emits_only P (py_not a).
Proof. intros Ha. unfold py_not. emits; assumption. Qed.

Lemma load_config_emits (P : Event → bool) :
  (∀ e, config_event e = true → P e = true) →
  emits_only P load_config.
Proof.
  intros HP. apply (emits_only_weaken config_event); [exact HP|].
  unfold load_config, sys_exit. emits;
    repeat first [ apply emits_only_py_and | apply emits_only_py_not
                 | apply emits_only_os_path_exists ].
Qed.

Lemma bind_loop_emits_gen (P : Event → bool) fuel addr portok thistry port :
  (∀ p, P (Call (Listen p addr)) = true) →
  (∀ p, P (Log WARNING (MsgPortInUse addr p (p + 1))) = true) →
  emits_only P (bind_loop fuel addr portok thistry port).
Proof.
  intros Hlisten Hwarn. revert portok thistry port.
  induction fuel as [|fuel IH]; intros portok thistry port; simpl.
  - emits.
  - destruct (negb portok && (thistry <? maxtries)); [|emits].
    apply emits_only_bind; [|intros [ok p]; apply IH].
    apply emits_only_try_except.
    + apply emits_only_bind; [apply emits_only_call, Hlisten | intros _; emits].
    + apply emits_only_bind; [apply emits_only_log, Hwarn | intros _; emits].
Qed.

Lemma bind_loop_emits fuel addr portok thistry port :
  emits_only build_event (bind_loop fuel addr portok thistry port).
Proof. by apply bind_loop_emits_gen. Qed.

Lemma build_server_emits fuel CONF :
  emits_only build_event (build_server fuel CONF).
Proof.
  unfold build_server, conf_settings, sys_exit. emits.
  apply bind_loop_emits.
Qed.

Lemma startup_emits fuel : emits_only startup_event (startup fuel).
Proof.
  unfold startup. emits.
  - apply load_config_emits. intros e He. unfold startup_event. by rewrite He.
  - apply (emits_only_weaken build_event); [|apply build_server_emits].
    intros e He. unfold startup_event. rewrite He. apply orb_true_r.
Qed.

Lemma on_keyboard_interrupt_emits : emits_only teardown_event on_keyboard_interrupt.
Proof. unfold on_keyboard_interrupt. emits. Qed.

Lemma executor_shutdown_emits : emits_only teardown_event executor_shutdown.
Proof. unfold executor_shutdown. emits. Qed.

Ltac pures_step :=
  first
    [ apply pure_state_call
    | apply pure_state_emit
    | apply pure_state_ret
    | apply pure_state_get
    | apply pure_state_stop
    | apply pure_state_try_except
    | match goal with
      | |- pure_state (call _) => fail 2
      | |- pure_state (_ ≫= _) => apply pure_state_bind; [|intros ?]
      | |- pure_state (if ?b then _ else _) => destruct b
      | |- pure_state (match ?x with _ => _ end) => destruct x
      end ].

Ltac pures := repeat pures_step.

Lemma bind_loop_pure fuel addr portok thistry port :
  pure_state (bind_loop fuel addr portok thistry port).
Proof.
  revert portok thistry port.
  induction fuel as [|fuel IH]; intros portok thistry port; simpl.
  - pures.
  - destruct (negb portok && (thistry <? maxtries)); unfold log; pures. apply IH.
Qed.

Lemma only_ticks_pure {A} (m : M A) : pure_state m → only_ticks m.
Proof. intros H w. exists (fs_clock w). rewrite H. by destruct w. Qed.

Lemma only_ticks_bind {A B} (m : M A) (f : A → M B) :
  only_ticks m → (∀ a, only_ticks (f a)) → only_ticks (m ≫= f).
Proof.
  intros Hm Hf w. rewrite run_bind.
  destruct (Hm w) as [n Hn].
  destruct (result (m w)) as [a|ab]; simpl; [|by exists n].
  destruct (Hf a (final (m w))) as [n' Hn']. exists n'.
  rewrite Hn'. by rewrite Hn.
Qed.

Lemma only_ticks_os_path_exists path : only_ticks (os_path_exists path).
Proof. intros w. by exists (S (fs_clock w)). Qed.

Ltac ticks_step :=
  first
    [ apply only_ticks_os_path_exists
    | apply only_ticks_pure; solve [unfold log, sys_exit, raise; pures]
    | match goal with
      | |- only_ticks (_ ≫= _) => apply only_ticks_bind; [|intros ?]
      | |- only_ticks (if ?b then _ else _) => destruct b
      end ].

Lemma load_config_only_ticks : only_ticks load_config.
Proof. unfold load_config, py_and, py_not. repeat ticks_step. Qed.

Lemma returns_with_any {St Ev A} (m : Py St Ev A) s (Q : A → St → Prop) :
  (∀ a s', Q a s') → returns_with m s Q.
Proof. intros HQ a _. apply HQ. Qed.

Lemma returns_with_only_ticks {A} (m : M A) w (Q : A → World → Prop) :
  only_ticks m →
  (∀ a n, Q a (mkWorld (env w) n (sigtable w) (executor w) (loop_bound w))) →
  returns_with m w Q.
Proof. intros Hm HQ a _. destruct (Hm w) as [n ->]. apply HQ. Qed.

(** The value [load_config] returns is the one the loader produced. *)
Lemma load_config_value w CONF :
  result (load_config w) = Ret CONF → CONF = conf_module (env w).
Proof.
  intros H.
  assert (returns_with load_config w (λ C _, C = conf_module (env w))) as Hrw;
    [|exact (Hrw CONF H)].
  unfold load_config.
  apply returns_with_bind, returns_with_get; cbv beta.
  apply returns_with_bind, returns_with_any. intros c1 w1.
  destruct c1.
  - apply returns_with_bind, returns_with_any. intros _ w2.
    apply returns_with_bind, returns_with_any. intros _ w3.
    by apply returns_with_ret.
  - apply returns_with_bind, returns_with_any. intros c2 w2.
    destruct c2.
    + apply returns_with_bind, returns_with_any. intros _ w3.
      apply returns_with_stop.
    + apply returns_with_bind, returns_with_any. intros c3 w3.
      destruct c3.
      * apply returns_with_bind, returns_with_any. intros _ w4.
        apply returns_with_bind, returns_with_any. intros _ w5.
        apply returns_with_bind, returns_with_any. intros _ w6.
        by apply returns_with_ret.
      * apply returns_with_bind, returns_with_any. intros _ w4.
        apply returns_with_stop.
Qed.

(** *** The pool *)

Lemma pool_create_fresh n initializer inherited :
  pool_fresh (pool_create n initializer inherited).
Proof.
  split; [done|]. simpl. apply Forall_fmap, Forall_forall. by intros i _.
Qed.


(** A second [shutdown()] changes nothing. *)
Lemma pool_shutdown_twice finalizer p :
  pool_shutdown finalizer (pool_shutdown finalizer p) = pool_shutdown finalizer p.
Proof. unfold pool_shutdown. by destruct (accepting p) eqn:E; simpl; [|rewrite E]. Qed.

(** *** The state after start-up *)

Lemma build_server_post fuel CONF w :
  returns_with (build_server fuel CONF) w (λ c w',
    CONF = Some c ∧ env w' = env w ∧ loop_bound w' = loop_bound w ∧
    sigtable w' = mkSigTable Handler_recv_sigint Handler_recv_sigint ∧
    ∃ pool, executor w' = Some pool ∧ pool_fresh pool ∧ pool = main_pool w c).
Proof.
  unfold build_server.
  apply returns_with_bind, returns_with_get; cbv beta.
  apply returns_with_bind, returns_with_pure;
    [destruct (String.eqb _ _); pures|intros _].
  apply returns_with_bind. destruct CONF as [c|]; [|apply returns_with_stop].
  apply returns_with_ret.
  apply returns_with_bind, returns_with_call.
  apply returns_with_bind, returns_with_get; cbv beta.
  apply returns_with_bind, returns_with_modify.
  apply returns_with_bind, returns_with_call.
  apply returns_with_bind, returns_with_call.
  apply returns_with_bind, returns_with_pure; [apply bind_loop_pure|].
  intros [[portok thistry] serverport].
  apply returns_with_bind, returns_with_pure;
    [destruct (negb portok); unfold log, sys_exit, raise; pures|intros _].
  apply returns_with_bind, returns_with_emit.
  apply returns_with_bind, returns_with_emit.
  apply returns_with_bind, returns_with_emit.
  apply returns_with_bind, returns_with_call.
  apply returns_with_bind, returns_with_modify.
  apply returns_with_bind, returns_with_call.
  apply returns_with_bind, returns_with_modify.
  apply returns_with_ret. simpl.
  split; [done|]. split; [done|]. split; [done|]. split; [done|].
  eexists. split; [done|]. split; [apply pool_create_fresh | done].
Qed.

Lemma startup_post fuel w :
  returns_with (startup fuel) w (λ c w',
    env w' = env w ∧ loop_bound w' = loop_bound w ∧
    sigtable w' = mkSigTable Handler_recv_sigint Handler_recv_sigint ∧
    ∃ pool, executor w' = Some pool ∧ pool_fresh pool ∧ pool = main_pool w c).
Proof.
  unfold startup.
  apply returns_with_bind, returns_with_call.
  apply returns_with_bind, returns_with_only_ticks; [apply load_config_only_ticks|].
  intros CONF n.
  eapply returns_with_weaken; [apply build_server_post|].
  simpl. intros c w' (_ & ? & ? & ? & ?). done.
Qed.

(** ** The scheduling phase and the shutdown path *)

Lemma bind_events {St Ev A B} (m : Py St Ev A) (f : A → Py St Ev B) s :
  ∃ post, events ((m ≫= f) s) = events (m s) ++ post ∧
          (post = [] ∨ ∃ a, result (m s) = Ret a ∧ post = events (f a (final (m s)))).
Proof.
  rewrite run_bind. destruct (result (m s)) as [a|ab]; simpl.
  - eexists. split; [done|]. right. by exists a.
  - exists []. split; [by rewrite app_nil_r | by left].
Qed.

(** [serve] records a prefix of the scheduling calls; it records all of
    them exactly when the four calls before [loop.start()] returned. *)
Lemma serve_run c w :
  serve c w = mkRun (scheduling_calls c) (bind_loop_var w)
                    (result (call LoopStart (bind_loop_var w))) ∨
  ∃ n, (n < 5)%nat ∧ events (serve c w) = take n (scheduling_calls c).
Proof.
  unfold serve.
  rewrite run_call_then.
  destruct (result (call IOLoopCurrent w));
    [|right; exists 1%nat; split; [lia|reflexivity]].
  rewrite run_modify_then, run_call_then.
  destruct (result (call (PeriodicArxivUpdate c) _));
    [|right; exists 2%nat; split; [lia|reflexivity]].
  rewrite run_call_then.
  destruct (result (call (PeriodicCallback _ _) _));
    [|right; exists 3%nat; split; [lia|reflexivity]].
  rewrite run_call_then.
  destruct (result (call PeriodicCallbackStart _));
    [|right; exists 4%nat; split; [lia|reflexivity]].
  left. rewrite call_events, call_final. reflexivity.
Qed.

Lemma startup_not_scheduling e : startup_event e = true → is_scheduling e = false.
Proof. by destruct e as [[]|[] []]. Qed.

Lemma teardown_not_scheduling e : teardown_event e = true → is_scheduling e = false.
Proof. by destruct e as [[]|[] []]. Qed.

(** What [run_server] records after the events of [serve] belongs to the
    shutdown path. *)
Lemma run_server_events c w :
  ∃ post, events (run_server c w) = events (serve c w) ++ post ∧
          Forall (λ e, teardown_event e = true) post.
Proof.
  unfold run_server.
  destruct (bind_events
              (try_except (serve c) is_keyboard_interrupt on_keyboard_interrupt)
              (λ _, executor_shutdown ;; call (TimeSleep 2)) w)
    as (post2 & -> & Hpost2).
  assert (Forall (λ e, teardown_event e = true) post2) as Hp2.
  { destruct Hpost2 as [->|(a & _ & ->)]; [constructor|].
    assert (emits_only teardown_event (executor_shutdown ;; call (TimeSleep 2))) as H
      by (unfold executor_shutdown; emits).
    apply H. }
  unfold try_except.
  destruct (result (serve c w)) as [a|[e| | |]];
    try (exists post2; by split).
  destruct (is_keyboard_interrupt e); [|exists post2; by split].
  simpl. exists (events (on_keyboard_interrupt (final (serve c w))) ++ post2).
  split; [by rewrite app_assoc|].
  apply Forall_app. split; [apply on_keyboard_interrupt_emits | done].
Qed.

Lemma shutdown_and_wait w :
  quiet (env w) ExecutorShutdown → quiet (env w) (TimeSleep 2) →
  (executor_shutdown ;; call (TimeSleep 2)) w =
  mkRun [Call ExecutorShutdown; Call (TimeSleep 2)]
        (set_executor (fmap (pool_shutdown close_database)) w) (Ret tt).
Proof.
  intros Hshut Hsleep. unfold executor_shutdown.
  rewrite run_bind, run_call_then, (call_quiet ExecutorShutdown) by done.
  unfold modify. cbn [result events final].
  rewrite (call_quiet (TimeSleep 2)) by done. reflexivity.
Qed.

Lemma serve_emits c : emits_only is_scheduling (serve c).
Proof. unfold serve. emits. Qed.

Lemma run_server_emits_late c :
  emits_only (λ e, is_scheduling e || teardown_event e) (run_server c).
Proof.
  unfold run_server. emits.
  - apply (emits_only_weaken is_scheduling); [|apply serve_emits].
    intros e He. by rewrite He.
  - apply (emits_only_weaken teardown_event); [|apply on_keyboard_interrupt_emits].
    intros e He. rewrite He. by rewrite orb_true_r.
  - apply (emits_only_weaken teardown_event); [|apply executor_shutdown_emits].
    intros e He. rewrite He. by rewrite orb_true_r.
Qed.





Lemma existsb_false_of_Forall {A} (P Q : A → bool) l :
  (∀ x, P x = true → Q x = false) →
  Forall (λ x, P x = true) l → existsb Q l = false.
Proof.
  intros HPQ. induction 1 as [|x l Hx _ IH]; [done|].
  simpl. by rewrite (HPQ x Hx), IH.
Qed.


(** *** The configuration phase *)





Lemma os_path_exists_run path w :
  os_path_exists path w = mkRun [] (tick w) (Ret (fs (env w) (fs_clock w) path)).
Proof. reflexivity. Qed.

Lemma py_and_exists_run path (b : M bool) w :
  py_and (os_path_exists path) b w =
  if fs (env w) (fs_clock w) path then b (tick w) else mkRun [] (tick w) (Ret false).
Proof.
  unfold py_and. rewrite run_bind, os_path_exists_run. cbn [result events final].
  destruct (fs (env w) (fs_clock w) path); [symmetry; apply run_eta | reflexivity].
Qed.

Lemma py_not_exists_run path w :
  py_not (os_path_exists path) w =
  mkRun [] (tick w) (Ret (negb (fs (env w) (fs_clock w) path))).
Proof. reflexivity. Qed.


(** ** Start-up order, shutdown sequence, fatal configuration errors *)



Lemma load_config_events_config w :
  Forall (λ e, config_event e = true) (events (load_config w)).
Proof. by apply (load_config_emits config_event). Qed.


(** ** The port loop never gives up *)
(** ** The port loop never gives up *)

Lemma bind_loop_done fuel addr thistry port :
  bind_loop fuel addr true thistry port = mret (true, thistry, port).
Proof. by destruct fuel. Qed.

Lemma bind_loop_step fuel addr thistry port :
  thistry < maxtries →
  bind_loop (S fuel) addr false thistry port =
  ('(portok', serverport') ←
     try_except
       (call (Listen port addr) ;; mret (true, port))
       is_socket_error
       (log WARNING (MsgPortInUse addr port (port + 1)) ;; mret (false, port + 1));
   bind_loop fuel addr portok' thistry serverport').
Proof.
  intros Hlt. cbn [bind_loop negb andb].
  by rewrite (proj2 (Z.ltb_lt _ _) Hlt).
Qed.

Lemma run_try_call {A} s (a : A) catches (h : M A) w :
  try_except (call s ;; mret a) catches h w =
  match result (call s w) with
  | Ret _ => mkRun [Call s] w (Ret a)
  | Stop (Raised e) =>
      if catches e
      then mkRun (Call s :: events (h w)) (final (h w)) (result (h w))
      else mkRun [Call s] w (Stop (Raised e))
  | Stop ab => mkRun [Call s] w (Stop ab)
  end.
Proof.
  unfold try_except. rewrite run_call_then.
  destruct (result (call s w)) as [u|[e| | |]]; try reflexivity.
Qed.

(** One turn of the loop, by what [listen] does. *)
Lemma bind_loop_turn fuel addr thistry port w :
  thistry < maxtries →
  bind_loop (S fuel) addr false thistry port w =
  match result (call (Listen port addr) w) with
  | Ret _ => mkRun [Call (Listen port addr)] w (Ret (true, thistry, port))
  | Stop (Raised SocketError) =>
      let r := bind_loop fuel addr false thistry (port + 1) w in
      mkRun (Call (Listen port addr) ::
             Log WARNING (MsgPortInUse addr port (port + 1)) :: events r)
            (final r) (result r)
  | Stop ab => mkRun [Call (Listen port addr)] w (Stop ab)
  end.
Proof.
  intros Hlt. rewrite (bind_loop_step _ _ _ _ Hlt).
  rewrite run_bind, run_try_call.
  destruct (result (call (Listen port addr) w)) as [u|[e| | |]];
    cbn [result events final]; try reflexivity.
  - by rewrite bind_loop_done.
  - destruct e; reflexivity.
Qed.

(** The loop variable [thistry] is never advanced: when the loop ends,
    it ends with a bound port and [thistry] as it was. *)
Lemma bind_loop_returns_bound fuel addr thistry port w portok' thistry' port' :
  thistry < maxtries →
  result (bind_loop fuel addr false thistry port w) = Ret (portok', thistry', port') →
  portok' = true ∧ thistry' = thistry.
Proof.
  intros Hlt. revert port.
  induction fuel as [|fuel IH]; intros port.
  - cbn [bind_loop negb andb]. by rewrite (proj2 (Z.ltb_lt _ _) Hlt).
  - rewrite (bind_loop_turn _ _ _ _ _ Hlt).
    destruct (result (call (Listen port addr) w)) as [u|[e| | |]];
      cbn [result]; try discriminate.
    + by intros [= <- <- <-].
    + destruct e; cbn [result]; try discriminate. apply IH.
Qed.

Lemma call_busy addr port w :
  outcome (env w) (Listen port addr) = Throws SocketError →
  signal_during (env w) (Listen port addr) = None →
  result (call (Listen port addr) w) = Stop (Raised SocketError).
Proof.
  intros Ho Hs. unfold call. rewrite !run_bind. cbn [emit get result events final].
  by rewrite Hs, Ho.
Qed.

(** With every port taken, no amount of fuel lets the loop end. *)
Lemma bind_loop_all_busy fuel addr port w :
  (∀ p, outcome (env w) (Listen p addr) = Throws SocketError ∧
        signal_during (env w) (Listen p addr) = None) →
  result (bind_loop fuel addr false 0 port w) = Stop OutOfFuel.
Proof.
  intros Hbusy. revert port.
  induction fuel as [|fuel IH]; intros port; [reflexivity|].
  rewrite bind_loop_turn by done.
  rewrite (call_busy addr port w) by apply Hbusy.
  cbn [result]. apply IH.
Qed.

Lemma build_server_no_port_error fuel CONF :
  emits_only (λ e, negb (is_port_error e)) (build_server fuel CONF).
Proof.
  unfold build_server, conf_settings.
  apply emits_only_bind; [emits|intros w0].
  apply emits_only_bind; [emits|intros _].
  apply emits_only_bind; [emits|intros c].
  apply emits_only_bind; [emits|intros _].
  apply emits_only_bind; [emits|intros w1].
  apply emits_only_bind; [emits|intros _].
  apply emits_only_bind; [emits|intros _].
  apply emits_only_bind; [emits|intros _].
  apply emits_only_bind_ret; [by apply bind_loop_emits_gen|].
  intros w2 [[portok thistry] port] Hret.
  apply bind_loop_returns_bound in Hret as [-> ->]; [|done].
  cbn [negb].
  match goal with
  | |- Forall _ (events (?m ?s)) =>
      assert (emits_only (λ e, negb (is_port_error e)) m) as H by emits;
      apply H
  end.
Qed.

(** No run of [main] ever logs that it found no free port: the branch
    of lines 398-401 is never taken. *)
Lemma main_never_gives_up_on_ports fuel w :
  existsb is_port_error (events (main fuel w)) = false.
Proof.
  apply (existsb_false_of_Forall (λ e, negb (is_port_error e)));
    [by intros e ?%negb_true_iff|].
  assert (emits_only (λ e, negb (is_port_error e)) (main fuel)) as H; [|apply H].
  unfold main, startup.
  apply emits_only_bind; [|intros c].
  - apply emits_only_bind; [emits|intros _].
    apply emits_only_bind; [|intros CONF; apply build_server_no_port_error].
    apply load_config_emits. intros e. by destruct e as [[]|[] []].
  - apply (emits_only_weaken (λ e, is_scheduling e || teardown_event e));
      [intros e; by destruct e as [[]|[] []]|].
    apply run_server_emits_late.
Qed.

(** C1 on the code.  The configured port is 5005; ports 5005 to 5014
    are taken and 5015 is free.  [main] tries eleven ports, binds 5015,
    which is not among the ten ports from 5005 on, never logs that it
    gave up, and goes on to serve.  More generally no run of [main],
    whatever the environment and however long the loop is followed,
    reaches the exit of lines 398-401: [thistry] stays 0. *)
Theorem port_retry_goes_past_ten_attempts :
  (let r := main 11 (initial_world (sample_env 5015 None)) in
   List.filter is_listen (events r) =
     (λ port, Call (Listen port "0.0.0.0")) <$>
       [5005; 5006; 5007; 5008; 5009; 5010; 5011; 5012; 5013; 5014; 5015] ∧
   Log INFO (MsgStarted "0.0.0.0" 5015) ∈ events r ∧
   result r = Stop Blocked) ∧
  (∀ fuel w, existsb is_port_error (events (main fuel w)) = false).
Proof.
  split; [|apply main_never_gives_up_on_ports].
  cbv zeta. split; [vm_compute; reflexivity|].
  split; [|vm_compute; reflexivity].
  apply list_elem_of_In. vm_compute. tauto.
Qed.

(** ** Fatal configuration errors *)







(** * Further properties *)

(** ** The lifecycle hooks *)

Lemma setup_worker_run db url p :
  setup_worker db url p =
  match db url with
  | Ret (eng, conn, meta) =>
      mkRun [WSignal SIGINT SIG_IGN; WGetDb url]
        (set_attr "metadata" meta (set_attr "connection" conn
           (set_attr "engine" eng (set_signal SIGINT SIG_IGN p))))
        (Ret tt)
  | Stop ab =>
      mkRun [WSignal SIGINT SIG_IGN; WGetDb url] (set_signal SIGINT SIG_IGN p) (Stop ab)
  end.
Proof.
  unfold setup_worker. rewrite run_emit_then, run_modify_then, run_emit_then.
  destruct (db url) as [[[eng conn] meta]|ab]; reflexivity.
Qed.

(** X1.  The initializer builds the context all at once or not at all:
    when the database factory returns, the three attributes hold its
    triple (whatever they held before) and every other attribute is as
    it was; when the factory raises, the exception leaves
    [setup_worker] and no attribute has changed.  In both cases the
    database is asked after SIGINT has been set to ignore. *)
Theorem setup_worker_all_or_nothing (db : DbFactory) (url : string) (p : Process) :
  let r := setup_worker db url p in
  events r = [WSignal SIGINT SIG_IGN; WGetDb url] ∧ name (final r) = name p ∧
  ((∃ eng conn meta,
      db url = Ret (eng, conn, meta) ∧ result r = Ret tt ∧
      attrs (final r) !! "engine" = Some eng ∧
      attrs (final r) !! "connection" = Some conn ∧
      attrs (final r) !! "metadata" = Some meta ∧
      ∀ k, context_attr k = false → attrs (final r) !! k = attrs p !! k) ∨
   (∃ ab, db url = Stop ab ∧ result r = Stop ab ∧ attrs (final r) = attrs p)).
Proof.
  cbv zeta. rewrite setup_worker_run.
  destruct (db url) as [[[eng conn] meta]|ab]; cbn [events final result].
  - split; [done|]. split; [done|]. left. exists eng, conn, meta.
    split; [done|]. split; [done|]. simpl.
    split; [by rewrite lookup_insert_ne, lookup_insert_ne, lookup_insert_eq|].
    split; [by rewrite lookup_insert_ne, lookup_insert_eq|].
    split; [by rewrite lookup_insert_eq|].
    intros k Hk. unfold context_attr in Hk.
    apply orb_false_iff in Hk as [Hk Hm]. apply orb_false_iff in Hk as [He Hc].
    apply bool_decide_eq_false in He, Hc, Hm.
    by rewrite !lookup_insert_ne.
  - split; [done|]. split; [done|]. right. by exists ab.
Qed.

Lemma attrs_drop_truthy_keep k k' p :
  k ≠ k' ∨ getattr_truthy k' p = false →
  attrs (drop_truthy k p) !! k' = attrs p !! k'.
Proof.
  intros [Hne|Hf]; [by apply attrs_drop_truthy_ne|].
  destruct (decide (k = k')) as [->|Hne]; [|by apply attrs_drop_truthy_ne].
  by rewrite drop_truthy_absent.
Qed.

Lemma sigs_drop_truthy k p : sigs (drop_truthy k p) = sigs p.
Proof. unfold drop_truthy. by destruct (getattr_truthy k p). Qed.

Lemma drop_truthy_keep_step k' q p k :
  k' ≠ k ∨ getattr_truthy k p = false →
  attrs q !! k = attrs p !! k →
  attrs (drop_truthy k' q) !! k = attrs p !! k.
Proof.
  intros H Hq. rewrite attrs_drop_truthy_keep; [done|].
  destruct H as [H|H]; [by left|right].
  unfold getattr_truthy in *. by rewrite Hq.
Qed.

(** What [close_database] leaves behind, in each of its three outcomes. *)
Lemma close_database_final p :
  final (close_database p) = cleared p ∨
  final (close_database p) = drop_truthy "metadata" p ∨
  final (close_database p) = drop_truthy "connection" (drop_truthy "metadata" p).
Proof.
  destruct (close_database_cases p) as [[Hc Hg]|[(o & x & L & T & C)|[Hc (o & x & L & T & C)]]].
  - left. by rewrite close_database_ok.
  - right; left. by rewrite (close_database_close_raises p o x).
  - right; right. by rewrite (close_database_dispose_raises p o x).
Qed.

(** X2.  Whether it returns or raises, [close_database] changes nothing
    but context attributes that hold a true value: an attribute with
    another name, and a context attribute holding a false value, are
    found as they were; so are the process name and the signal
    dispositions. *)
Theorem close_database_touches_only_live_handles (p : Process) (k : string) :
  context_attr k = false ∨ getattr_truthy k p = false →
  attrs (final (close_database p)) !! k = attrs p !! k ∧
  name (final (close_database p)) = name p ∧
  sigs (final (close_database p)) = sigs p.
Proof.
  intros Hk.
  assert (∀ k', context_attr k' = true → k' ≠ k ∨ getattr_truthy k p = false) as Hkeep.
  { intros k' Hk'. destruct Hk as [Hk|Hk]; [left|by right].
    intros ->. congruence. }
  split; [|split].
  - destruct (close_database_final p) as [->|[->| ->]]; unfold cleared;
      repeat (apply drop_truthy_keep_step; [by apply Hkeep|]); reflexivity.
  - destruct (close_database_final p) as [->|[->| ->]]; unfold cleared;
      by rewrite !name_drop_truthy.
  - destruct (close_database_final p) as [->|[->| ->]]; unfold cleared;
      by rewrite !sigs_drop_truthy.
Qed.

Lemma close_database_touches_only_live_handles_witness :
  attrs (final (close_database odd_worker)) !! "daemon" = Some (mkObj 7 true None) ∧
  attrs (final (close_database odd_worker)) !! "connection" = Some (mkObj 8 false None).
Proof.
  split.
  - exact (proj1 (close_database_touches_only_live_handles odd_worker "daemon"
                    (or_introl eq_refl))).
  - exact (proj1 (close_database_touches_only_live_handles odd_worker "connection"
                    (or_intror eq_refl))).
Defined.

Lemma metadata_steps_no_dispose p : existsb is_dispose (metadata_steps p) = false.
Proof. unfold metadata_steps. by destruct (getattr_truthy "metadata" p). Qed.

(** X3.  When [connection.close()] raises, the finalizer stops there:
    the metadata attribute is gone, but the connection attribute still
    holds the connection and the engine attribute is as it was;
    [engine.dispose()] has not been called. *)
Theorem close_database_failure_leaves_handles (p : Process) (o : PyObj) (e : Exc) :
  attrs p !! "connection" = Some o → truthy o = true → cleanup o = Some e →
  let q := final (close_database p) in
  getattr_truthy "metadata" q = false ∧
  attrs q !! "connection" = Some o ∧
  attrs q !! "engine" = attrs p !! "engine" ∧
  existsb is_dispose (events (close_database p)) = false.
Proof.
  intros L T C. cbv zeta.
  rewrite (close_database_close_raises p o e L T C). cbn [final events].
  split; [apply getattr_truthy_drop|].
  split; [by rewrite attrs_drop_truthy_ne|].
  split; [by rewrite attrs_drop_truthy_ne|].
  by rewrite existsb_app, metadata_steps_no_dispose.
Qed.

Lemma close_database_failure_leaves_handles_witness :
  attrs (final (close_database stale_worker)) !! "connection" = Some stale_connection ∧
  attrs (final (close_database stale_worker)) !! "engine" = Some (mkObj 1 true None) ∧
  existsb is_dispose (events (close_database stale_worker)) = false.
Proof.
  destruct (close_database_failure_leaves_handles stale_worker stale_connection
              (OtherError "connection lost") eq_refl eq_refl eq_refl)
    as (_ & Hc & Hg & Hnone).
  split; [exact Hc|]. split; [exact Hg|]. exact Hnone.
Defined.

(** X4.  On a process that has none of the three attributes, a
    successful initializer followed by the finalizer - the handles
    being true values whose cleanup calls return - takes the five
    cleanup steps in order, prints the message and gives back the
    attributes exactly as they were before the initializer ran. *)
Theorem setup_then_close_restores (db : DbFactory) (url : string) (p : Process)
    (eng conn meta : PyObj) :
  db url = Ret (eng, conn, meta) →
  truthy eng = true → truthy conn = true → truthy meta = true →
  cleanup eng = None → cleanup conn = None →
  (∀ k, context_attr k = true → attrs p !! k = None) →
  let q := final (setup_worker db url p) in
  result (close_database q) = Ret tt ∧
  events (close_database q) =
    [WDelAttr "metadata"; WConnClose conn; WDelAttr "connection";
     WEngineDispose eng; WDelAttr "engine"; WPrint (shutdown_message p)] ∧
  attrs (final (close_database q)) = attrs p.
Proof.
  intros Hdb Te Tc Tm Ce Cc Hfree. cbv zeta.
  rewrite setup_worker_run, Hdb. cbn [final].
  set (q := set_attr "metadata" meta _).
  assert (attrs q !! "metadata" = Some meta) as Lm
    by (unfold q; simpl; by rewrite lookup_insert_eq).
  assert (attrs q !! "connection" = Some conn) as Lc
    by (unfold q; simpl; by rewrite lookup_insert_ne, lookup_insert_eq).
  assert (attrs q !! "engine" = Some eng) as Lg
    by (unfold q; simpl; by rewrite lookup_insert_ne, lookup_insert_ne, lookup_insert_eq).
  assert (getattr_truthy "metadata" q = true) as Gm
    by (unfold getattr_truthy; by rewrite Lm).
  assert (getattr_truthy "connection" q = true) as Gc
    by (unfold getattr_truthy; by rewrite Lc).
  assert (getattr_truthy "engine" q = true) as Gg
    by (unfold getattr_truthy; by rewrite Lg).
  assert (cleanup_returns "connection" q = true) as Rc
    by (unfold cleanup_returns; by rewrite Lc, Tc, Cc).
  assert (cleanup_returns "engine" q = true) as Rg
    by (unfold cleanup_returns; by rewrite Lg, Te, Ce).
  rewrite (close_database_ok q Rc Rg).
  cbn [result events final]. split; [done|]. split.
  - unfold metadata_steps, handle_steps. by rewrite Gm, Lc, Lg, Tc, Te.
  - unfold cleared, drop_truthy.
    rewrite Gm.
    replace (getattr_truthy "connection" (del_attr "metadata" q)) with true
      by (unfold getattr_truthy; cbn [attrs del_attr];
          by rewrite lookup_delete_ne, Lc, Tc).
    replace (getattr_truthy "engine" (del_attr "connection" (del_attr "metadata" q)))
      with true
      by (unfold getattr_truthy; cbn [attrs del_attr];
          by rewrite lookup_delete_ne, lookup_delete_ne, Lg, Te).
    unfold q. simpl. apply map_eq. intros k.
    destruct (decide (k = "engine")) as [->|Hg];
      [rewrite lookup_delete_eq; symmetry; by apply Hfree|].
    rewrite lookup_delete_ne by done.
    destruct (decide (k = "connection")) as [->|Hc];
      [rewrite lookup_delete_eq; symmetry; by apply Hfree|].
    rewrite lookup_delete_ne by done.
    destruct (decide (k = "metadata")) as [->|Hm];
      [rewrite lookup_delete_eq; symmetry; by apply Hfree|].
    rewrite lookup_delete_ne by done.
    by rewrite !lookup_insert_ne.
Qed.

Lemma setup_then_close_restores_witness :
  result (close_database ready_worker) = Ret tt ∧
  attrs (final (close_database ready_worker)) = attrs fresh_process.
Proof.
  destruct (setup_then_close_restores sample_db "sqlite:///astro-coffee.sqlite"
              fresh_process (mkObj 1 true None) (mkObj 2 true None) (mkObj 3 true None)
              eq_refl eq_refl eq_refl eq_refl eq_refl eq_refl)
    as (Hres & _ & Hattrs).
  - intros k _. apply lookup_empty.
  - split; [exact Hres | exact Hattrs].
Defined.

(** ** The local-authors query *)

Lemma getattr_missing k p :
  attrs p !! k = None → getattr k p = mkRun [] p (Stop (Raised AttributeError)).
Proof. intros L. unfold getattr. rewrite run_get_then. by rewrite L. Qed.

(** X5.  On a worker that lacks the connection or the metadata
    attribute, [get_local_authors] raises AttributeError; the backend
    is not asked, and the process is left as it is. *)
Theorem get_local_authors_needs_context {K V} (backend : AuthorsBackend K V)
    (include_affiliations : bool) (p : Process) :
  attrs p !! "connection" = None ∨ attrs p !! "metadata" = None →
  get_local_authors backend include_affiliations p =
  mkRun [] p (Stop (Raised AttributeError)).
Proof.
  intros H. unfold get_local_authors.
  destruct (attrs p !! "connection") as [conn|] eqn:Lc.
  - destruct H as [?|Lm]; [done|].
    rewrite run_bind, (getattr_run _ _ _ Lc). cbn [result events final].
    by rewrite (run_bind_stop _ _ _ _ (f_equal result (getattr_missing _ _ Lm))),
      (getattr_missing _ _ Lm).
  - by rewrite (run_bind_stop _ _ _ _ (f_equal result (getattr_missing _ _ Lc))),
      (getattr_missing _ _ Lc).
Qed.

Lemma get_local_authors_needs_context_witness :
  get_local_authors sample_authors true fresh_process =
  mkRun [] fresh_process (Stop (Raised AttributeError)).
Proof.
  apply (get_local_authors_needs_context sample_authors true fresh_process).
  left. reflexivity.
Defined.

(** X6.  [get_local_authors] only reads: in every case the process is
    left as it was, and what is recorded is at most one query of the
    backend, made with the connection and the metadata of the process
    and the flag it was called with. *)
Theorem get_local_authors_reads_only {K V} (backend : AuthorsBackend K V)
    (include_affiliations : bool) (p : Process) :
  final (get_local_authors backend include_affiliations p) = p ∧
  (events (get_local_authors backend include_affiliations p) = [] ∨
   ∃ conn meta,
     attrs p !! "connection" = Some conn ∧ attrs p !! "metadata" = Some meta ∧
     events (get_local_authors backend include_affiliations p) =
       [WAuthorsQuery conn meta include_affiliations]).
Proof.
  destruct (attrs p !! "connection") as [conn|] eqn:Lc;
    [destruct (attrs p !! "metadata") as [meta|] eqn:Lm|].
  - rewrite (get_local_authors_run backend _ _ conn meta Lc Lm).
    split; [done|]. right. by exists conn, meta.
  - rewrite get_local_authors_needs_context by by right. split; [done|by left].
  - rewrite get_local_authors_needs_context by by left. split; [done|by left].
Qed.

(** ** The bind loop *)

Lemma bind_loop_after_taken_ports fuel addr thistry port k w :
  thistry < maxtries →
  (∀ i, (i < k)%nat → port_taken (env w) addr (port + Z.of_nat i)) →
  result (call (Listen (port + Z.of_nat k) addr) w) ≠ Stop (Raised SocketError) →
  (k < fuel)%nat →
  bind_loop fuel addr false thistry port w =
  mkRun (failed_attempts addr port k ++ [Call (Listen (port + Z.of_nat k) addr)]) w
    match result (call (Listen (port + Z.of_nat k) addr) w) with
    | Ret _ => Ret (true, thistry, port + Z.of_nat k)
    | Stop ab => Stop ab
    end.
Proof.
  intros Hlt. revert port fuel.
  induction k as [|k IH]; intros port fuel Htaken Hlast Hfuel;
    (destruct fuel as [|fuel]; [lia|]); rewrite (bind_loop_turn _ _ _ _ _ Hlt).
  - change (Z.of_nat 0) with 0 in *. rewrite Z.add_0_r in *.
    destruct (result (call (Listen port addr) w)) as [u|[[]| | |]]; done.
  - destruct (Htaken 0%nat ltac:(lia)) as [Ho Hs].
    change (Z.of_nat 0) with 0 in *. rewrite Z.add_0_r in *.
    rewrite (call_busy addr port w Ho Hs). cbv zeta.
    replace (port + Z.of_nat (S k)) with (port + 1 + Z.of_nat k) in * by lia.
    rewrite (IH (port + 1) fuel); [reflexivity| |done|lia].
    intros i Hi. replace (port + 1 + Z.of_nat i) with (port + Z.of_nat (S i)) by lia.
    apply Htaken. lia.
Qed.

Lemma call_quiet_result s w : quiet (env w) s → result (call s w) = Ret tt.
Proof. intros H. by rewrite call_quiet. Qed.

(** X7.  The bind loop takes the first port that is free: when the [k]
    ports from the configured one on are taken and the next one can be
    bound, the loop makes [k] failed attempts, each followed by its
    warning, then binds port number configured + k and ends - however
    large [k] is, as long as the loop is followed for more than [k]
    turns.  The counter [thistry] comes out as it went in. *)
Theorem bind_loop_binds_first_free_port (fuel : nat) (addr : string)
    (port : Z) (k : nat) (w : World) :
  (∀ i, (i < k)%nat → port_taken (env w) addr (port + Z.of_nat i)) →
  quiet (env w) (Listen (port + Z.of_nat k) addr) →
  (k < fuel)%nat →
  bind_loop fuel addr false 0 port w =
  mkRun (failed_attempts addr port k ++ [Call (Listen (port + Z.of_nat k) addr)]) w
        (Ret (true, 0, port + Z.of_nat k)).
Proof.
  intros Htaken Hfree Hfuel.
  rewrite (bind_loop_after_taken_ports fuel addr 0 port k w); [|done|done| |done].
  - by rewrite (call_quiet_result _ _ Hfree).
  - by rewrite (call_quiet_result _ _ Hfree).
Qed.

Lemma bind_loop_binds_first_free_port_witness :
  bind_loop 30 "0.0.0.0" false 0 5005 (initial_world (sample_env 5017 None)) =
  mkRun (failed_attempts "0.0.0.0" 5005 12 ++ [Call (Listen 5017 "0.0.0.0")])
        (initial_world (sample_env 5017 None)) (Ret (true, 0, 5017)).
Proof.
  apply (bind_loop_binds_first_free_port 30 "0.0.0.0" 5005 12
           (initial_world (sample_env 5017 None))).
  - intros i Hi. split; simpl.
    + replace (5005 + Z.of_nat i <? 5017) with true; [done|].
      symmetry. apply Z.ltb_lt. lia.
    + reflexivity.
  - split; reflexivity.
  - lia.
Defined.

(** X8.  The loop retries on socket.error only: when, after [k] taken
    ports, [listen] fails in any other way, the loop ends at once with
    that failure; no warning is logged for it and no further port is
    tried. *)
Theorem bind_loop_passes_other_failures (fuel : nat) (addr : string)
    (port : Z) (k : nat) (w : World) (ab : Abort) :
  (∀ i, (i < k)%nat → port_taken (env w) addr (port + Z.of_nat i)) →
  result (call (Listen (port + Z.of_nat k) addr) w) = Stop ab →
  ab ≠ Raised SocketError →
  (k < fuel)%nat →
  bind_loop fuel addr false 0 port w =
  mkRun (failed_attempts addr port k ++ [Call (Listen (port + Z.of_nat k) addr)]) w
        (Stop ab).
Proof.
  intros Htaken Hfail Hne Hfuel.
  rewrite (bind_loop_after_taken_ports fuel addr 0 port k w); [|done|done| |done].
  - by rewrite Hfail.
  - rewrite Hfail. congruence.
Qed.

Lemma bind_loop_passes_other_failures_witness :
  bind_loop 1 "0.0.0.0" false 0 5005 (initial_world forbidden_port_env) =
  mkRun [Call (Listen 5005 "0.0.0.0")] (initial_world forbidden_port_env)
        (Stop (Raised (OtherError "permission denied"))).
Proof.
  apply (bind_loop_passes_other_failures 1 "0.0.0.0" 5005 0
           (initial_world forbidden_port_env)
           (Raised (OtherError "permission denied"))).
  - intros i Hi. lia.
  - reflexivity.
  - discriminate.
  - lia.
Defined.

Lemma bind_loop_returns_shape (fuel : nat) (addr : string)
    (port : Z) (w : World) (portok : bool) (thistry serverport : Z) :
  result (bind_loop fuel addr false 0 port w) = Ret (portok, thistry, serverport) →
  portok = true ∧ thistry = 0 ∧
  ∃ k : nat,
    serverport = port + Z.of_nat k ∧
    (∀ i, (i < k)%nat →
       result (call (Listen (port + Z.of_nat i) addr) w) = Stop (Raised SocketError)) ∧
    result (call (Listen serverport addr) w) = Ret tt ∧
    bind_loop fuel addr false 0 port w =
      mkRun (failed_attempts addr port k ++ [Call (Listen serverport addr)]) w
            (Ret (true, 0, serverport)).
Proof.
  revert port. induction fuel as [|fuel IH]; intros port; [discriminate|].
  rewrite bind_loop_turn by done.
  destruct (result (call (Listen port addr) w)) as [[]|[e| | |]] eqn:Ecall;
    cbn [result]; try discriminate.
  - intros [= <- <- <-]. split; [done|]. split; [done|].
    exists 0%nat. change (Z.of_nat 0) with 0. rewrite Z.add_0_r.
    split; [done|]. split; [intros i Hi; lia|]. by split.
  - destruct e; cbn [result]; try discriminate. cbv zeta. cbn [result].
    intros H. destruct (IH (port + 1) H) as (-> & -> & k & -> & Hbelow & Hlast & Hrun).
    split; [done|]. split; [done|].
    exists (S k). split; [lia|]. split; [|split; [done|]].
    + intros [|i] Hi.
      * change (Z.of_nat 0) with 0. by rewrite Z.add_0_r.
      * replace (port + Z.of_nat (S i)) with (port + 1 + Z.of_nat i) by lia.
        apply Hbelow. lia.
    + rewrite Hrun. reflexivity.
Qed.

(** X9.  When the loop ends with a value, it has bound a port: the flag
    is true, [thistry] is unchanged, and the port is the configured one
    plus the number [k] of failed attempts; each of the [k] ports below
    it raised socket.error, the call on the bound port returned, and
    the record is exactly those attempts. *)
Theorem bind_loop_result_is_first_free_port (fuel : nat) (addr : string)
    (port : Z) (w : World) (portok : bool) (thistry serverport : Z) :
  result (bind_loop fuel addr false 0 port w) = Ret (portok, thistry, serverport) →
  portok = true ∧ thistry = 0 ∧
  ∃ k : nat,
    serverport = port + Z.of_nat k ∧
    (∀ i, (i < k)%nat →
       result (call (Listen (port + Z.of_nat i) addr) w) = Stop (Raised SocketError)) ∧
    result (call (Listen serverport addr) w) = Ret tt ∧
    bind_loop fuel addr false 0 port w =
      mkRun (failed_attempts addr port k ++ [Call (Listen serverport addr)]) w
            (Ret (true, 0, serverport)).
Proof. apply bind_loop_returns_shape. Qed.

Lemma bind_loop_result_is_first_free_port_witness :
  ∃ k : nat,
    5007 = 5005 + Z.of_nat k ∧
    result (call (Listen 5007 "0.0.0.0") (initial_world (sample_env 5007 None))) = Ret tt.
Proof.
  destruct (bind_loop_result_is_first_free_port 5 "0.0.0.0" 5005
              (initial_world (sample_env 5007 None)) true 0 5007 eq_refl)
    as (_ & _ & k & Hk & _ & Hlast & _).
  exists k. by split.
Defined.

Lemma bind_loop_crowded_events fuel addr port w :
  (∀ p, port_taken (env w) addr p) →
  events (bind_loop fuel addr false 0 port w) = failed_attempts addr port fuel.
Proof.
  intros Hbusy. revert port.
  induction fuel as [|fuel IH]; intros port; [reflexivity|].
  rewrite bind_loop_turn by done.
  destruct (Hbusy port) as [Ho Hs]. rewrite (call_busy addr port w Ho Hs).
  cbv zeta. cbn [events failed_attempts]. by rewrite IH.
Qed.

(** X10.  When every port is taken the loop does not end: however many
    turns it is followed, it has made that many failed attempts on
    consecutive ports and is still going. *)
Theorem bind_loop_never_ends_when_crowded (fuel : nat) (addr : string)
    (port : Z) (w : World) :
  (∀ p, port_taken (env w) addr p) →
  result (bind_loop fuel addr false 0 port w) = Stop OutOfFuel ∧
  events (bind_loop fuel addr false 0 port w) = failed_attempts addr port fuel.
Proof.
  intros Hbusy. split.
  - apply bind_loop_all_busy. exact Hbusy.
  - by apply bind_loop_crowded_events.
Qed.

Lemma bind_loop_never_ends_when_crowded_witness :
  result (bind_loop 40 "0.0.0.0" false 0 5005 (initial_world crowded_env))
    = Stop OutOfFuel ∧
  events (bind_loop 40 "0.0.0.0" false 0 5005 (initial_world crowded_env))
    = failed_attempts "0.0.0.0" 5005 40.
Proof.
  apply (bind_loop_never_ends_when_crowded 40 "0.0.0.0" 5005 (initial_world crowded_env)).
  intros p. split; reflexivity.
Defined.

(** ** The order of start-up *)

Section Recording.
Context {St Ev : Type}.

Lemma returns_recording_bind {A B} (m : Py St Ev A) (f : A → Py St Ev B) s
    (Q : B → St → list Ev → Prop) :
  returns_recording m s (λ a s' ev,
    returns_recording (f a) s' (λ b s'' ev', Q b s'' (ev ++ ev'))) →
  returns_recording (m ≫= f) s Q.
Proof.
  intros H b. rewrite run_bind.
  destruct (result (m s)) as [a|ab] eqn:E; cbn [result events final]; [|discriminate].
  intros Hb. exact (H a E b Hb).
Qed.

Lemma returns_recording_ret {A} (a : A) s (Q : A → St → list Ev → Prop) :
  Q a s [] → returns_recording (mret a) s Q.
Proof. by intros HQ b [= <-]. Qed.

Lemma returns_recording_stop {A} ab s (Q : A → St → list Ev → Prop) :
  returns_recording (stop ab) s Q.
Proof. by intros b. Qed.

Lemma returns_recording_get s (Q : St → St → list Ev → Prop) :
  Q s s [] → returns_recording get s Q.
Proof. by intros HQ b [= <-]. Qed.

Lemma returns_recording_modify f s (Q : unit → St → list Ev → Prop) :
  Q tt (f s) [] → returns_recording (modify f) s Q.
Proof. by intros HQ [] _. Qed.

Lemma returns_recording_emit (e : Ev) s (Q : unit → St → list Ev → Prop) :
  Q tt s [e] → returns_recording (emit e) s Q.
Proof. by intros HQ [] _. Qed.

End Recording.

Lemma returns_recording_call s w (Q : unit → World → list Event → Prop) :
  Q tt w [Call s] → returns_recording (call s) w Q.
Proof. intros HQ [] _. by rewrite call_final, call_events. Qed.

Lemma returns_recording_bind_loop fuel addr port w
    (Q : bool * Z * Z → World → list Event → Prop) :
  (∀ k : nat,
     Q (true, 0, port + Z.of_nat k) w
       (failed_attempts addr port k ++ [Call (Listen (port + Z.of_nat k) addr)])) →
  returns_recording (bind_loop fuel addr false 0 port) w Q.
Proof.
  intros HQ [[ok t] p] H.
  destruct (bind_loop_returns_shape _ _ _ _ _ _ _ H) as (-> & -> & k & -> & _ & _ & ->).
  apply HQ.
Qed.

Lemma returns_recording_load_config w (Q : option Conf → World → list Event → Prop) :
  (∀ n cfg, Forall (λ e, config_event e = true) cfg →
     Q (conf_module (env w))
       (mkWorld (env w) n (sigtable w) (executor w) (loop_bound w)) cfg) →
  returns_recording load_config w Q.
Proof.
  intros HQ CONF H. rewrite (load_config_value _ _ H).
  destruct (load_config_only_ticks w) as [n ->].
  apply HQ, load_config_events_config.
Qed.

Lemma build_server_record fuel CONF w :
  returns_recording (build_server fuel CONF) w (λ c _ ev,
    CONF = Some c ∧
    ∃ k : nat,
      ev = platform_calls (env w) ++
           [Call (ProcessPoolExecutor (max_workers c) (database_url c));
            Call (Application c); Call HTTPServer] ++
           failed_attempts (server_address c) (server_port c) k ++
           [Call (Listen (server_port c + Z.of_nat k) (server_address c));
            Log INFO (MsgStarted (server_address c) (server_port c + Z.of_nat k));
            Log INFO (MsgWorkers (max_workers c) (ioloop_spec (env w)));
            Log INFO (MsgBasedir (options_basedir (env w)));
            Call (SignalSignal SIGINT Handler_recv_sigint);
            Call (SignalSignal SIGTERM Handler_recv_sigint)]).
Proof.
  unfold build_server, platform_calls, log.
  apply returns_recording_bind, returns_recording_get; cbv beta.
  apply returns_recording_bind.
  assert (∀ Q : unit → World → list Event → Prop,
            Q tt w (if String.eqb (sys_platform (env w)) "darwin"
                    then [Call (RequestsGet "http://captive.apple.com/hotspot-detect.html")]
                    else []) →
            returns_recording
              (if String.eqb (sys_platform (env w)) "darwin"
               then call (RequestsGet "http://captive.apple.com/hotspot-detect.html")
               else mret tt) w Q) as Hplat.
  { intros Q HQ. destruct (String.eqb (sys_platform (env w)) "darwin");
      [by apply returns_recording_call | by apply returns_recording_ret]. }
  apply Hplat.
  apply returns_recording_bind. destruct CONF as [c|]; [|apply returns_recording_stop].
  apply returns_recording_ret.
  apply returns_recording_bind, returns_recording_call.
  apply returns_recording_bind, returns_recording_get; cbv beta.
  apply returns_recording_bind, returns_recording_modify.
  apply returns_recording_bind, returns_recording_call.
  apply returns_recording_bind, returns_recording_call.
  apply returns_recording_bind, returns_recording_bind_loop. intros k. cbv beta iota.
  apply returns_recording_bind. cbn [negb]. apply returns_recording_ret.
  apply returns_recording_bind, returns_recording_emit.
  apply returns_recording_bind, returns_recording_emit.
  apply returns_recording_bind, returns_recording_emit.
  apply returns_recording_bind, returns_recording_call.
  apply returns_recording_bind, returns_recording_modify.
  apply returns_recording_bind, returns_recording_call.
  apply returns_recording_bind, returns_recording_modify.
  apply returns_recording_ret.
  split; [done|]. exists k.
  rewrite !app_nil_r, !app_nil_l. f_equal.
  cbn [app]. rewrite <- !app_assoc. reflexivity.
Qed.

Lemma startup_record_shape fuel w c :
  result (startup fuel w) = Ret c →
  ∃ cfg k,
    conf_module (env w) = Some c ∧
    Forall (λ e, config_event e = true) cfg ∧
    events (startup fuel w) = startup_record (env w) c cfg k.
Proof.
  assert (returns_recording (startup fuel) w (λ c _ ev,
            ∃ cfg k, conf_module (env w) = Some c ∧
              Forall (λ e, config_event e = true) cfg ∧
              ev = startup_record (env w) c cfg k)) as H; [|exact (H c)].
  unfold startup.
  apply returns_recording_bind, returns_recording_call.
  apply returns_recording_bind, returns_recording_load_config. intros n cfg Hcfg.
  intros c' Hc'. destruct (build_server_record fuel _ _ c' Hc') as (Hconf & k & ->).
  exists cfg, k. split; [done|]. split; [done|]. reflexivity.
Qed.

(** X11.  A start-up that succeeds has gone through its steps in this
    order: command line, configuration, the platform check (the
    request to captive.apple.com on darwin and nothing elsewhere), the
    worker pool, the application and the HTTP server, the attempts to
    bind, the three messages, the handlers for SIGINT and SIGTERM.  So
    the pool exists before any port is tried, on darwin the request
    precedes the pool, the port in the start message is the port that
    was bound, and the handlers are registered last.  The settings are
    the ones the loader delivered. *)
Theorem startup_steps_in_order (fuel : nat) (w : World) (c : Conf) :
  result (startup fuel w) = Ret c →
  ∃ cfg k,
    conf_module (env w) = Some c ∧
    Forall (λ e, config_event e = true) cfg ∧
    events (startup fuel w) = startup_record (env w) c cfg k.
Proof. apply startup_record_shape. Qed.

Lemma startup_steps_in_order_witness :
  ∃ cfg k,
    conf_module stopped_loop_env = Some sample_conf ∧
    Forall (λ e, config_event e = true) cfg ∧
    events (startup 1 (initial_world stopped_loop_env)) =
      startup_record stopped_loop_env sample_conf cfg k.
Proof.
  apply (startup_steps_in_order 1 (initial_world stopped_loop_env) sample_conf).
  reflexivity.
Defined.

(** ** Ways out of [main] *)

Lemma startup_no_teardown fuel w :
  existsb teardown_event (events (startup fuel w)) = false.
Proof.
  apply (existsb_false_of_Forall startup_event); [|apply startup_emits].
  intros e. by destruct e as [[]|[] []].
Qed.

Lemma serve_no_teardown c w : existsb teardown_event (events (serve c w)) = false.
Proof.
  apply (existsb_false_of_Forall is_scheduling); [|apply serve_emits].
  intros e. by destruct e as [[]|[] []].
Qed.

Lemma result_mkRun {St Ev A} (ev : list Ev) (s : St) (r : Res A) :
  result (mkRun ev s r) = r.
Proof. reflexivity. Qed.

Lemma events_mkRun {St Ev A} (ev : list Ev) (s : St) (r : Res A) :
  events (mkRun ev s r) = ev.
Proof. reflexivity. Qed.

Lemma final_mkRun {St Ev A} (ev : list Ev) (s : St) (r : Res A) :
  final (mkRun ev s r) = s.
Proof. reflexivity. Qed.

Lemma modify_run {St Ev} (f : St → St) (s : St) :
  modify (Ev:=Ev) f s = mkRun [] (f s) (Ret tt).
Proof. reflexivity. Qed.

Lemma main_run fuel w :
  main fuel w =
  match result (startup fuel w) with
  | Ret c =>
      mkRun (events (startup fuel w) ++ events (run_server c (final (startup fuel w))))
            (final (run_server c (final (startup fuel w))))
            (result (run_server c (final (startup fuel w))))
  | Stop ab => mkRun (events (startup fuel w)) (final (startup fuel w)) (Stop ab)
  end.
Proof. reflexivity. Qed.

Lemma shutdown_and_wait_run w :
  (executor_shutdown ;; call (TimeSleep 2)) w =
  match result (call ExecutorShutdown w) with
  | Ret _ =>
      mkRun [Call ExecutorShutdown; Call (TimeSleep 2)]
        (set_executor (fmap (pool_shutdown close_database)) w)
        (result (call (TimeSleep 2)
                   (set_executor (fmap (pool_shutdown close_database)) w)))
  | Stop ab => mkRun [Call ExecutorShutdown] w (Stop ab)
  end.
Proof.
  unfold executor_shutdown. rewrite run_bind, run_call_then.
  destruct (result (call ExecutorShutdown w)); [|reflexivity].
  rewrite !modify_run, !result_mkRun, !events_mkRun, !final_mkRun.
  rewrite call_events, call_final. reflexivity.
Qed.

Lemma on_keyboard_interrupt_no_pool_shutdown w :
  existsb is_pool_shutdown (events (on_keyboard_interrupt w)) = false.
Proof.
  apply (existsb_false_of_Forall (λ e, negb (is_pool_shutdown e)));
    [by intros e ?%negb_true_iff|].
  assert (emits_only (λ e, negb (is_pool_shutdown e)) on_keyboard_interrupt) as H
    by (unfold on_keyboard_interrupt; emits).
  apply H.
Qed.

Lemma serve_no_pool_shutdown c w :
  existsb is_pool_shutdown (events (serve c w)) = false.
Proof.
  apply (existsb_false_of_Forall is_scheduling); [|apply serve_emits].
  intros e. by destruct e as [[]|[] []].
Qed.

Lemma startup_no_pool_shutdown fuel w :
  existsb is_pool_shutdown (events (startup fuel w)) = false.
Proof.
  apply (existsb_false_of_Forall startup_event); [|apply startup_emits].
  intros e. by destruct e as [[]|[] []].
Qed.

(** The [try] statement of lines 414-441 does not shut the pool down. *)
Lemma try_serve_no_pool_shutdown c w :
  existsb is_pool_shutdown
    (events (try_except (serve c) is_keyboard_interrupt on_keyboard_interrupt w)) = false.
Proof.
  unfold try_except.
  destruct (result (serve c w)) as [a|[e| | |]]; try apply serve_no_pool_shutdown.
  destruct (is_keyboard_interrupt e); [|apply serve_no_pool_shutdown].
  rewrite events_mkRun, existsb_app, serve_no_pool_shutdown.
  apply on_keyboard_interrupt_no_pool_shutdown.
Qed.

Lemma run_server_uncaught c w e :
  result (serve c w) = Stop (Raised e) → e ≠ KeyboardInterrupt →
  run_server c w = mkRun (events (serve c w)) (final (serve c w)) (Stop (Raised e)).
Proof.
  intros Hserve Hne. unfold run_server.
  assert (try_except (serve c) is_keyboard_interrupt on_keyboard_interrupt w = serve c w)
    as Htry.
  { unfold try_except. rewrite Hserve.
    replace (is_keyboard_interrupt e) with false; [done|].
    symmetry. by apply bool_decide_eq_false. }
  rewrite (run_bind_stop _ _ _ (Raised e)); rewrite Htry; [reflexivity|exact Hserve].
Qed.

Lemma run_server_returns c w :
  result (run_server c w) = Ret tt →
  ∃ pre,
    events (run_server c w) = pre ++ [Call ExecutorShutdown; Call (TimeSleep 2)] ∧
    existsb is_pool_shutdown pre = false.
Proof.
  unfold run_server. rewrite run_bind.
  pose proof (try_serve_no_pool_shutdown c w) as Hpre.
  destruct (result (try_except (serve c) is_keyboard_interrupt on_keyboard_interrupt w))
    as [[]|ab]; rewrite result_mkRun, events_mkRun; [|discriminate].
  rewrite shutdown_and_wait_run.
  destruct (result (call ExecutorShutdown _)) as [[]|ab] eqn:Hshut;
    rewrite result_mkRun, events_mkRun; [|discriminate].
  intros _. eexists. split; [reflexivity | exact Hpre].
Qed.

(** X12.  The pool is shut down only from inside [main]'s [try]
    statement: when start-up ends with an exception or an exit - a
    failure of the application, of the HTTP server, of [listen] other
    than socket.error, of a signal registration - [main] ends the same
    way and records no step of the shutdown path, although the pool may
    already have been constructed. *)
Theorem startup_failure_skips_shutdown (fuel : nat) (w : World) (ab : Abort) :
  result (startup fuel w) = Stop ab →
  main fuel w = mkRun (events (startup fuel w)) (final (startup fuel w)) (Stop ab) ∧
  existsb teardown_event (events (main fuel w)) = false.
Proof.
  intros H. unfold main. rewrite (run_bind_stop _ _ _ _ H).
  split; [done|]. apply startup_no_teardown.
Qed.

Lemma startup_failure_skips_shutdown_witness :
  result (main 1 (initial_world forbidden_port_env))
    = Stop (Raised (OtherError "permission denied")) ∧
  existsb teardown_event (events (main 1 (initial_world forbidden_port_env))) = false ∧
  Call (ProcessPoolExecutor 2 "sqlite:///astro-coffee.sqlite")
    ∈ events (main 1 (initial_world forbidden_port_env)).
Proof.
  destruct (startup_failure_skips_shutdown 1 (initial_world forbidden_port_env)
              (Raised (OtherError "permission denied")) eq_refl) as [Hrun Hnone].
  split; [by rewrite Hrun|]. split; [exact Hnone|].
  apply list_elem_of_In. vm_compute. tauto.
Defined.

(** X13.  Only KeyboardInterrupt leads to the shutdown path.  When,
    after a successful start-up, the scheduling phase ends in any other
    way - the first arxiv update raises, the timer cannot be created,
    [loop.start()] raises - [main] ends with that failure right there:
    no message, no [loop.stop()], no [EXECUTOR.shutdown()], no sleep. *)
Theorem other_failures_skip_shutdown (fuel : nat) (w : World) (c : Conf) (e : Exc) :
  result (startup fuel w) = Ret c →
  result (serve c (final (startup fuel w))) = Stop (Raised e) →
  e ≠ KeyboardInterrupt →
  main fuel w =
    mkRun (events (startup fuel w) ++ events (serve c (final (startup fuel w))))
          (final (serve c (final (startup fuel w)))) (Stop (Raised e)) ∧
  existsb teardown_event (events (main fuel w)) = false.
Proof.
  intros Hc Hserve Hne.
  assert (main fuel w =
    mkRun (events (startup fuel w) ++ events (serve c (final (startup fuel w))))
          (final (serve c (final (startup fuel w)))) (Stop (Raised e))) as Hmain.
  { rewrite main_run, Hc.
    rewrite (run_server_uncaught c (final (startup fuel w)) e Hserve Hne).
    rewrite events_mkRun, final_mkRun, result_mkRun. reflexivity. }
  split; [exact Hmain|]. rewrite Hmain, events_mkRun.
  by rewrite existsb_app, startup_no_teardown, serve_no_teardown.
Qed.

Lemma other_failures_skip_shutdown_witness :
  result (main 1 (initial_world failing_update_env))
    = Stop (Raised (OtherError "arxiv unreachable")) ∧
  existsb teardown_event (events (main 1 (initial_world failing_update_env))) = false.
Proof.
  destruct (other_failures_skip_shutdown 1 (initial_world failing_update_env)
              sample_conf (OtherError "arxiv unreachable") eq_refl eq_refl)
    as [Hrun Hnone]; [discriminate|].
  split; [by rewrite Hrun | exact Hnone].
Defined.

(** X14.  An interrupt that arrives while [IOLoop.current()] is running
    finds the variable [loop] unbound: the [except] clause logs its
    message, then [loop.stop()] raises UnboundLocalError, and [main]
    ends with it; the pool is not shut down. *)
Theorem interrupt_before_loop_is_bound (fuel : nat) (w : World) (c : Conf)
    (sg : Signal) :
  result (startup fuel w) = Ret c →
  loop_bound w = false →
  signal_during (env w) IOLoopCurrent = Some sg →
  main fuel w =
    mkRun (events (startup fuel w) ++ [Call IOLoopCurrent; Log INFO MsgCtrlC])
          (final (startup fuel w)) (Stop (Raised UnboundLocalError)).
Proof.
  intros Hc Hloop Hsig.
  destruct (startup_post fuel w c Hc) as (Henv & Hbound & Htable & _).
  unfold main. rewrite (run_bind_ret _ _ _ _ Hc). unfold run_server.
  rewrite run_bind. unfold try_except, serve.
  rewrite run_call_then.
  rewrite (call_interrupted IOLoopCurrent _ sg);
    [|by rewrite Henv|rewrite Htable; by destruct sg].
  cbn [result events final].
  change (is_keyboard_interrupt KeyboardInterrupt) with true. cbn iota.
  unfold on_keyboard_interrupt, log. rewrite run_emit_then, run_get_then.
  rewrite Hbound, Hloop. reflexivity.
Qed.

Lemma interrupt_before_loop_is_bound_witness :
  main 1 (initial_world early_interrupt_env) =
    mkRun (events (startup 1 (initial_world early_interrupt_env)) ++
           [Call IOLoopCurrent; Log INFO MsgCtrlC])
          (final (startup 1 (initial_world early_interrupt_env)))
          (Stop (Raised UnboundLocalError)).
Proof.
  apply (interrupt_before_loop_is_bound 1 (initial_world early_interrupt_env)
           sample_conf SIGINT); reflexivity.
Defined.

(** X16.  [main] returns only at its last line: in every run that
    returns, start-up had succeeded and the record ends with
    [EXECUTOR.shutdown()] and [time.sleep(2)]; the pool is not shut
    down anywhere before. *)
Theorem main_returns_after_shutdown (fuel : nat) (w : World) :
  result (main fuel w) = Ret tt →
  ∃ c pre,
    result (startup fuel w) = Ret c ∧
    events (main fuel w) = pre ++ [Call ExecutorShutdown; Call (TimeSleep 2)] ∧
    existsb is_pool_shutdown pre = false.
Proof.
  rewrite main_run.
  destruct (result (startup fuel w)) as [c|ab] eqn:Hc;
    rewrite result_mkRun, events_mkRun; [|discriminate].
  intros Hret. destruct (run_server_returns _ _ Hret) as (pre & Hev & Hpre).
  exists c, (events (startup fuel w) ++ pre).
  split; [done|]. split.
  - by rewrite Hev, app_assoc.
  - by rewrite existsb_app, startup_no_pool_shutdown, Hpre.
Qed.

Lemma main_returns_after_shutdown_witness :
  ∃ c pre,
    result (startup 1 (initial_world (tornado_env (Some SIGINT)))) = Ret c ∧
    events (main 1 (initial_world (tornado_env (Some SIGINT))))
      = pre ++ [Call ExecutorShutdown; Call (TimeSleep 2)] ∧
    existsb is_pool_shutdown pre = false.
Proof.
  apply (main_returns_after_shutdown 1 (initial_world (tornado_env (Some SIGINT)))).
  reflexivity.
Defined.

(** ** The configuration phase on a file system that stays put *)

Lemma load_config_stable_events w :
  stable_fs (env w) →
  ∃ rest,
    (rest = [] ∨ rest = [Call (ModuleFromString (generated_conf_file (env w)))]) ∧
    events (load_config w) =
    if fs (env w) 0 (os_path_join (options_basedir (env w)) ".coffee-first-run-done")
    then
      if fs (env w) 0 (os_path_join (options_basedir (env w)) "coffee_settings.py")
      then [Log INFO (MsgLoadingConfig
              (os_path_join (options_basedir (env w)) "coffee_settings.py"));
            Call (ModuleFromString
              (os_path_join (options_basedir (env w)) "coffee_settings.py"))]
      else [Log ERROR (MsgNoConfig (options_basedir (env w))
              (os_path_join (options_basedir (env w)) ".coffee-first-run-done"))]
    else
      Log WARNING (MsgGenerating (options_basedir (env w))) ::
      Call (SetupCoffeeServer (options_basedir (env w))) :: rest.
Proof.
  intros Hfs. unfold load_config. rewrite run_get_then.
  rewrite run_bind, py_and_exists_run, (Hfs (fs_clock w) 0%nat).
  destruct (fs (env w) 0 (os_path_join (options_basedir (env w)) ".coffee-first-run-done"))
    eqn:Hmarker.
  - rewrite os_path_exists_run, result_mkRun, events_mkRun, final_mkRun.
    cbn [env tick fs_clock]. rewrite (Hfs (S (fs_clock w)) 0%nat).
    destruct (fs (env w) 0 (os_path_join (options_basedir (env w)) "coffee_settings.py"))
      eqn:Hconf.
    + exists []. split; [by left|].
      unfold log. rewrite run_emit_then, events_mkRun, run_call_then.
      by destruct (result (call _ _)).
    + exists []. split; [by left|].
      rewrite run_bind, py_and_exists_run. cbn [env tick fs_clock].
      rewrite (Hfs (S (S (fs_clock w))) 0%nat), Hmarker, py_not_exists_run.
      cbn [env tick fs_clock]. rewrite (Hfs (S (S (S (fs_clock w)))) 0%nat), Hconf.
      reflexivity.
  - rewrite result_mkRun, events_mkRun, final_mkRun.
    rewrite run_bind, py_and_exists_run. cbn [env tick fs_clock].
    rewrite (Hfs (S (fs_clock w)) 0%nat), Hmarker.
    rewrite result_mkRun, events_mkRun, final_mkRun.
    rewrite run_bind, py_not_exists_run. cbn [env tick fs_clock].
    rewrite (Hfs (S (S (fs_clock w))) 0%nat), Hmarker.
    rewrite result_mkRun, events_mkRun, final_mkRun. cbn [negb].
    unfold log. rewrite run_emit_then, events_mkRun, run_call_then.
    destruct (result (call (SetupCoffeeServer _) _));
      [|exists []; split; [by left|reflexivity]].
    rewrite events_mkRun, run_call_then.
    exists [Call (ModuleFromString (generated_conf_file (env w)))].
    split; [by right|].
    by destruct (result (call (ModuleFromString _) _)).
Qed.

(** X17.  On a file system whose answers do not change during start-up
    the configuration phase has three courses and no fourth.  Marker
    and settings file present: the settings file of the base directory
    is loaded.  Marker present, settings file absent: the error
    message.  Marker absent: the first-run set-up is called, whether a
    settings file exists or not, and the module then loaded is the
    file the set-up returned.  The message "could not load the expected
    config file" of the final [else] is never logged. *)
Theorem load_config_on_stable_fs (w : World) :
  stable_fs (env w) →
  existsb is_could_not_load (events (load_config w)) = false ∧
  ∃ rest,
    (rest = [] ∨ rest = [Call (ModuleFromString (generated_conf_file (env w)))]) ∧
    events (load_config w) =
    if fs (env w) 0 (os_path_join (options_basedir (env w)) ".coffee-first-run-done")
    then
      if fs (env w) 0 (os_path_join (options_basedir (env w)) "coffee_settings.py")
      then [Log INFO (MsgLoadingConfig
              (os_path_join (options_basedir (env w)) "coffee_settings.py"));
            Call (ModuleFromString
              (os_path_join (options_basedir (env w)) "coffee_settings.py"))]
      else [Log ERROR (MsgNoConfig (options_basedir (env w))
              (os_path_join (options_basedir (env w)) ".coffee-first-run-done"))]
    else
      Log WARNING (MsgGenerating (options_basedir (env w))) ::
      Call (SetupCoffeeServer (options_basedir (env w))) :: rest.
Proof.
  intros Hfs. destruct (load_config_stable_events w Hfs) as (rest & Hrest & Hev).
  split; [|by exists rest].
  rewrite Hev.
  destruct (fs (env w) 0 _); [by destruct (fs (env w) 0 _)|].
  by destruct Hrest as [-> | ->].
Qed.

Lemma load_config_on_stable_fs_witness :
  events (load_config (initial_world first_run_env)) =
    [Log WARNING (MsgGenerating "/srv/coffee");
     Call (SetupCoffeeServer "/srv/coffee");
     Call (ModuleFromString "/srv/coffee/generated_settings.py")] ∧
  existsb is_could_not_load (events (load_config (initial_world first_run_env))) = false.
Proof.
  destruct (load_config_on_stable_fs (initial_world first_run_env)) as [Hnever _].
  - intros n m path. reflexivity.
  - split; [reflexivity | exact Hnever].
Defined.

(** ** An interrupt during the first update *)

Lemma serve_interrupted_in_update c w sg :
  quiet (env w) IOLoopCurrent →
  signal_during (env w) (PeriodicArxivUpdate c) = Some sg →
  disposition (sigtable w) sg = Handler_recv_sigint →
  serve c w =
  mkRun [Call IOLoopCurrent; Call (PeriodicArxivUpdate c)] (bind_loop_var w)
        (Stop (Raised KeyboardInterrupt)).
Proof.
  intros Hcur Hsig Hdisp. unfold serve.
  rewrite run_call_then, (call_quiet_result _ _ Hcur).
  rewrite run_modify_then, run_call_then.
  rewrite (call_interrupted (PeriodicArxivUpdate c) (bind_loop_var w) sg Hsig Hdisp).
  rewrite result_mkRun. reflexivity.
Qed.

Lemma handler_with_loop w :
  loop_bound w = true → quiet (env w) LoopStop →
  on_keyboard_interrupt w = mkRun [Log INFO MsgCtrlC; Call LoopStop] w (Ret tt).
Proof.
  intros Hb Hq. unfold on_keyboard_interrupt, log.
  rewrite run_emit_then, run_get_then, Hb, (call_quiet _ _ Hq).
  by rewrite events_mkRun, final_mkRun, result_mkRun.
Qed.

Lemma run_server_interrupted_in_update c w sg :
  quiet (env w) IOLoopCurrent →
  signal_during (env w) (PeriodicArxivUpdate c) = Some sg →
  disposition (sigtable w) sg = Handler_recv_sigint →
  quiet (env w) LoopStop → quiet (env w) ExecutorShutdown →
  quiet (env w) (TimeSleep 2) →
  run_server c w =
  mkRun ([Call IOLoopCurrent; Call (PeriodicArxivUpdate c)] ++ shutdown_calls)
        (set_executor (fmap (pool_shutdown close_database)) (bind_loop_var w))
        (Ret tt).
Proof.
  intros Hcur Hsig Hdisp Hstop Hshut Hsleep.
  assert (try_except (serve c) is_keyboard_interrupt on_keyboard_interrupt w =
          mkRun [Call IOLoopCurrent; Call (PeriodicArxivUpdate c);
                 Log INFO MsgCtrlC; Call LoopStop] (bind_loop_var w) (Ret tt)) as Htry.
  { unfold try_except.
    rewrite (serve_interrupted_in_update c w sg Hcur Hsig Hdisp).
    rewrite result_mkRun, events_mkRun, final_mkRun.
    change (is_keyboard_interrupt KeyboardInterrupt) with true. cbn iota.
    rewrite (handler_with_loop (bind_loop_var w)) by done.
    by rewrite events_mkRun, final_mkRun, result_mkRun. }
  unfold run_server. rewrite run_bind, Htry.
  rewrite result_mkRun, events_mkRun, final_mkRun.
  rewrite (shutdown_and_wait (bind_loop_var w)) by done.
  by rewrite events_mkRun, final_mkRun, result_mkRun.
Qed.

(** X18.  An interrupt or terminate signal that arrives during the
    first, synchronous arxiv update also takes the shutdown path: the
    timer is never created and the loop never started; [main] logs the
    message, calls [loop.stop()] on the loop it had obtained, shuts the
    pool down, sleeps and returns. *)
Theorem interrupt_during_first_update (fuel : nat) (w : World) (c : Conf) (sg : Signal) :
  result (startup fuel w) = Ret c →
  quiet (env w) IOLoopCurrent →
  signal_during (env w) (PeriodicArxivUpdate c) = Some sg →
  quiet (env w) LoopStop →
  quiet (env w) ExecutorShutdown →
  quiet (env w) (TimeSleep 2) →
  events (main fuel w) =
    events (startup fuel w) ++
    [Call IOLoopCurrent; Call (PeriodicArxivUpdate c);
     Log INFO MsgCtrlC; Call LoopStop; Call ExecutorShutdown; Call (TimeSleep 2)] ∧
  result (main fuel w) = Ret tt.
Proof.
  intros Hc Hcur Hsig Hstop Hshut Hsleep.
  destruct (startup_post fuel w c Hc) as (Henv & _ & Htable & _).
  assert (run_server c (final (startup fuel w)) =
          mkRun ([Call IOLoopCurrent; Call (PeriodicArxivUpdate c)] ++ shutdown_calls)
            (set_executor (fmap (pool_shutdown close_database))
               (bind_loop_var (final (startup fuel w))))
            (Ret tt)) as Hrun.
  { apply (run_server_interrupted_in_update c _ sg); rewrite ?Henv; try done.
    rewrite Htable. by destruct sg. }
  rewrite main_run, Hc, Hrun, events_mkRun, result_mkRun, events_mkRun. by split.
Qed.

Lemma interrupt_during_first_update_witness :
  events (main 1 (initial_world update_interrupt_env)) =
    events (startup 1 (initial_world update_interrupt_env)) ++
    [Call IOLoopCurrent; Call (PeriodicArxivUpdate sample_conf);
     Log INFO MsgCtrlC; Call LoopStop; Call ExecutorShutdown; Call (TimeSleep 2)] ∧
  result (main 1 (initial_world update_interrupt_env)) = Ret tt.
Proof.
  apply (interrupt_during_first_update 1 _ sample_conf SIGTERM).
  - reflexivity.
  - split; reflexivity.
  - reflexivity.
  - split; reflexivity.
  - split; reflexivity.
  - split; reflexivity.
Defined.

(** ** The scheduling phase on tornado's loop *)

(** A call the library answers with an exception does not return,
    whether or not a signal arrives while it runs. *)
Lemma call_throws s w e :
  outcome (env w) s = Throws e → ∃ ab, result (call s w) = Stop ab.
Proof.
  intros Ho. unfold call, deliver, recv_sigint, raise, stop.
  rewrite !run_bind; simpl.
  destruct (signal_during (env w) s) as [sg|]; simpl;
    [destruct (disposition (sigtable w) sg); simpl|];
    rewrite ?Ho; eauto.
Qed.

Lemma call_throws_quietly s w e :
  outcome (env w) s = Throws e → signal_during (env w) s = None →
  call s w = mkRun [Call s] w (Stop (Raised e)).
Proof.
  intros Ho Hs. unfold call. rewrite !run_bind; simpl.
  by rewrite Hs, Ho.
Qed.

(** When [loop.PeriodicCallback] raises, [serve] gets no further than
    that line. *)
Lemma serve_stops_at_timer c w e :
  outcome (env w) (PeriodicCallback (86400000 # 1) (1 # 10)) = Throws e →
  ∃ n, (n ≤ 3)%nat ∧ events (serve c w) = take n (scheduling_calls c).
Proof.
  intros Ho. unfold serve.
  rewrite run_call_then.
  destruct (result (call IOLoopCurrent w));
    [|exists 1%nat; split; [lia|reflexivity]].
  rewrite run_modify_then, run_call_then.
  destruct (result (call (PeriodicArxivUpdate c) _));
    [|exists 2%nat; split; [lia|reflexivity]].
  rewrite run_call_then.
  destruct (call_throws (PeriodicCallback (86400000 # 1) (1 # 10)) (bind_loop_var w) e Ho)
    as [ab ->].
  exists 3%nat. split; [lia|reflexivity].
Qed.

Lemma serve_attribute_error c w e :
  quiet (env w) IOLoopCurrent →
  quiet (env w) (PeriodicArxivUpdate c) →
  outcome (env w) (PeriodicCallback (86400000 # 1) (1 # 10)) = Throws e →
  signal_during (env w) (PeriodicCallback (86400000 # 1) (1 # 10)) = None →
  serve c w =
  mkRun [Call IOLoopCurrent; Call (PeriodicArxivUpdate c);
         Call (PeriodicCallback (86400000 # 1) (1 # 10))]
        (bind_loop_var w) (Stop (Raised e)).
Proof.
  intros Hcur Hupd Ho Hs. unfold serve.
  rewrite run_call_then, (call_quiet_result _ _ Hcur).
  rewrite run_modify_then, run_call_then.
  rewrite (call_quiet_result _ (bind_loop_var w) Hupd).
  rewrite run_call_then.
  rewrite (call_throws_quietly _ (bind_loop_var w) e Ho Hs).
  rewrite result_mkRun. reflexivity.
Qed.

Lemma prefix_no_arming c n :
  (n ≤ 3)%nat → existsb is_arming (take n (scheduling_calls c)) = false.
Proof. intros Hn. destruct n as [|[|[|[|n]]]]; try reflexivity. lia. Qed.

Lemma startup_no_arming fuel w :
  existsb is_arming (events (startup fuel w)) = false.
Proof.
  apply (existsb_false_of_Forall startup_event); [|apply startup_emits].
  intros e. by destruct e as [[]|[] []].
Qed.

Lemma teardown_no_arming post :
  Forall (λ e, teardown_event e = true) post → existsb is_arming post = false.
Proof.
  apply existsb_false_of_Forall. intros e. by destruct e as [[]|[] []].
Qed.

Lemma main_events fuel w :
  events (main fuel w) = events (startup fuel w) ∨
  ∃ c, result (startup fuel w) = Ret c ∧
       events (main fuel w) =
         events (startup fuel w) ++ events (run_server c (final (startup fuel w))).
Proof.
  rewrite main_run.
  destruct (result (startup fuel w)) as [c|ab]; rewrite events_mkRun.
  - right. by exists c.
  - by left.
Qed.

(** C4.  The order of lines 416-436 is the one the design describes:
    in every run of [main] the calls of the scheduling phase form an
    initial part of the sequence - obtain the loop, run the arxiv update
    once, create the periodic callback (period 86400000 ms, jitter 0.1),
    start it, start the loop - and nothing of the kind is recorded
    before or after.  But the periodic callback is asked of the loop
    object, which on tornado does not have it: when
    [loop.PeriodicCallback] raises AttributeError, no run of [main]
    starts the timer or the loop; and when start-up has succeeded and
    the first update has returned, [main] ends right at line 428 with
    the AttributeError (exit status 1), having recorded no step of the
    shutdown path. *)
Theorem timer_is_never_armed (fuel : nat) (w : World) :
  (∃ c n pre post,
     events (main fuel w) = pre ++ take n (scheduling_calls c) ++ post ∧
     Forall (λ e, is_scheduling e = false) pre ∧
     Forall (λ e, is_scheduling e = false) post) ∧
  (outcome (env w) (PeriodicCallback (86400000 # 1) (1 # 10)) = Throws AttributeError →
   existsb is_arming (events (main fuel w)) = false ∧
   ∀ c, result (startup fuel w) = Ret c →
        quiet (env w) IOLoopCurrent →
        quiet (env w) (PeriodicArxivUpdate c) →
        signal_during (env w) (PeriodicCallback (86400000 # 1) (1 # 10)) = None →
        events (main fuel w) =
          events (startup fuel w) ++
          [Call IOLoopCurrent; Call (PeriodicArxivUpdate c);
           Call (PeriodicCallback (86400000 # 1) (1 # 10))] ∧
        result (main fuel w) = Stop (Raised AttributeError) ∧
        exit_status (result (main fuel w)) = Some 1 ∧
        existsb teardown_event (events (main fuel w)) = false).
Proof.
  assert (Forall (λ e, is_scheduling e = false) (events (startup fuel w))) as Hpre.
  { eapply Forall_impl; [apply startup_emits|]. apply startup_not_scheduling. }
  split.
  - destruct (main_events fuel w) as [Hev|(c & Hc & Hev)].
    + exists sample_conf, 0%nat, (events (startup fuel w)), [].
      split; [by rewrite Hev, take_0, !app_nil_r|]. by split.
    + destruct (run_server_events c (final (startup fuel w))) as (post & Hev' & Hpost).
      assert (Forall (λ e, is_scheduling e = false) post) as Hpost'.
      { eapply Forall_impl; [exact Hpost|]. apply teardown_not_scheduling. }
      destruct (serve_run c (final (startup fuel w))) as [Hserve|(n & _ & Hserve)].
      * exists c, 5%nat, (events (startup fuel w)), post.
        split; [|by split]. by rewrite Hev, Hev', Hserve.
      * exists c, n, (events (startup fuel w)), post.
        split; [|by split]. by rewrite Hev, Hev', Hserve.
  - intros Ho. split.
    + destruct (main_events fuel w) as [Hev|(c & Hc & Hev)]; rewrite Hev;
        [apply startup_no_arming|].
      destruct (startup_post fuel w c Hc) as (Henv & _).
      destruct (run_server_events c (final (startup fuel w))) as (post & Hev' & Hpost).
      rewrite <- Henv in Ho.
      destruct (serve_stops_at_timer c (final (startup fuel w)) _ Ho) as (n & Hn & Hserve).
      rewrite Hev', Hserve, !existsb_app, startup_no_arming.
      by rewrite (prefix_no_arming c n Hn), (teardown_no_arming post Hpost).
    + intros c Hc Hcur Hupd Hsig.
      destruct (startup_post fuel w c Hc) as (Henv & _).
      rewrite <- Henv in Ho, Hcur, Hupd, Hsig.
      pose proof (serve_attribute_error c (final (startup fuel w)) AttributeError
                    Hcur Hupd Ho Hsig) as Hserve.
      assert (main fuel w =
        mkRun (events (startup fuel w) ++
               [Call IOLoopCurrent; Call (PeriodicArxivUpdate c);
                Call (PeriodicCallback (86400000 # 1) (1 # 10))])
              (bind_loop_var (final (startup fuel w)))
              (Stop (Raised AttributeError))) as Hmain.
      { rewrite main_run, Hc.
        rewrite (run_server_uncaught c (final (startup fuel w)) AttributeError);
          [|by rewrite Hserve|discriminate].
        rewrite Hserve, !events_mkRun, !final_mkRun, result_mkRun. reflexivity. }
      rewrite Hmain, events_mkRun, result_mkRun.
      split; [done|]. split; [done|]. split; [done|].
      by rewrite existsb_app, startup_no_teardown.
Qed.

Lemma timer_is_never_armed_witness :
  events (main 1 (initial_world (tornado_env None))) =
    events (startup 1 (initial_world (tornado_env None))) ++
    [Call IOLoopCurrent; Call (PeriodicArxivUpdate sample_conf);
     Call (PeriodicCallback (86400000 # 1) (1 # 10))] ∧
  result (main 1 (initial_world (tornado_env None))) = Stop (Raised AttributeError) ∧
  existsb is_arming (events (main 1 (initial_world (tornado_env None)))) = false ∧
  existsb teardown_event (events (main 1 (initial_world (tornado_env None)))) = false.
Proof.
  destruct (timer_is_never_armed 1 (initial_world (tornado_env None))) as [_ H].
  destruct (H eq_refl) as [Hnone Hrun].
  destruct (Hrun sample_conf eq_refl) as (Hev & Hres & _ & Hdown).
  - split; reflexivity.
  - split; reflexivity.
  - reflexivity.
  - split; [exact Hev|]. split; [exact Hres|]. split; [exact Hnone | exact Hdown].
Defined.

(** ** The shutdown sequence *)






